(** * Premium video pipeline

    A shallow embedding of the three classes of [premiumvideodevice]:

    - [PremiumVideoEffectDriver]    (per-frame pixel transform),
    - [PremiumVideoStreamHandler]   (input/output canvases, the self-rescheduling
                                     [process] loop, audio track passthrough),
    - [PremiumVideoTransformDevice] (lifecycle facade).

    JavaScript objects that are shared by reference and mutated in place
    (media streams, the ready state of tracks, the effect configuration, the
    timer queue of the page, the logger) live in an explicit [World] store;
    objects owned by exactly one holder (the canvases and the video element of
    a handler, the handler of a device) are record fields of their owner. *)

From Stdlib Require Import Strings.Byte QArith Qminmax ZArith Lia Lqa.
From stdpp Require Import gmap strings list pretty.

Open Scope nat_scope.

(** ** Browser objects *)

(** A JavaScript [async] function ends by fulfilling or by rejecting its
    promise. *)
Inductive DOMException := IndexSizeError | InvalidStateError | TypeError.

Inductive Completion := Fulfilled | Rejected (e : DOMException).

(** *** ImageData and Uint8ClampedArray *)

Record ImageData := mkImageData {
  data : list byte;
  width : nat;
  height : nat
}.

(** Storing a number into a [Uint8ClampedArray] clamps it to 0..255 (the
    numbers stored here are integers, so no rounding is involved). *)
Definition toUint8Clamp (z : Z) : byte :=
  default x00 (Byte.of_N (Z.to_N (Z.max 0 (Z.min 255 z)))).

(** Reading an element yields its numeric value. *)
Definition byte_value (b : byte) : Z := Z.of_N (Byte.to_N b).

(** [Uint8ClampedArray.prototype.map]: the callback receives the element
    and its index, and the result is stored into a new clamped array. *)
Definition Uint8ClampedArray_map (f : Z → nat → Z) (a : list byte) : list byte :=
  imap (λ idx b, toUint8Clamp (f (byte_value b) idx)) a.

(** [new ImageData(data, sw, sh)] checks its arguments: the length must be
    a nonzero multiple of 4, the pixel count a multiple of [sw], and the
    row count equal to [sh]. *)
Definition new_ImageData (d : list byte) (sw sh : nat) : DOMException + ImageData :=
  if (length d =? 0) || negb (length d mod 4 =? 0) then inl InvalidStateError
  else if (sw =? 0) || negb ((length d / 4) mod sw =? 0) then inl IndexSizeError
  else if negb (length d / 4 / sw =? sh) then inl IndexSizeError
  else inr (mkImageData d sw sh).

(** The browser only hands out image data of positive dimensions whose
    buffer holds four bytes per pixel. *)
Definition wf_ImageData (img : ImageData) : Prop :=
  0 < width img ∧ 0 < height img ∧ length (data img) = width img * height img * 4.

(** *** Canvases *)

Record Canvas := mkCanvas {
  cv_width : nat;
  cv_height : nat;
  cv_bitmap : list byte          (* row-major RGBA, [cv_width * cv_height * 4] bytes *)
}.

Definition blank (w h : nat) : list byte := replicate (w * h * 4) x00.

(** [document.createElement('canvas')]: 300 x 150, transparent black. *)
Definition createCanvas : Canvas := mkCanvas 300 150 (blank 300 150).

(** Assigning [width] or [height] clears the bitmap. *)
Definition set_canvas_width (w : nat) (c : Canvas) : Canvas :=
  mkCanvas w (cv_height c) (blank w (cv_height c)).

Definition set_canvas_height (h : nat) (c : Canvas) : Canvas :=
  mkCanvas (cv_width c) h (blank (cv_width c) h).

(** Copy a [sw] x [sh] pixel rectangle to the origin of the canvas; what
    falls outside the canvas is clipped. *)
Definition blit (sw sh : nat) (src : list byte) (c : Canvas) : Canvas :=
  mkCanvas (cv_width c) (cv_height c)
    (imap (λ i old,
       let x := (i / 4) mod cv_width c in
       let y := (i / 4) / cv_width c in
       if (x <? sw) && (y <? sh)
       then default old (src !! ((y * sw + x) * 4 + i mod 4))
       else old) (cv_bitmap c)).

(** [ctx.putImageData(img, 0, 0)]. *)
Definition putImageData (img : ImageData) (c : Canvas) : Canvas :=
  blit (width img) (height img) (data img) c.

(** [ctx.getImageData(0, 0, sw, sh)] with [sw], [sh] the canvas's own
    dimensions, the only way the handler calls it. *)
Definition getImageData (c : Canvas) : DOMException + ImageData :=
  if (cv_width c =? 0) || (cv_height c =? 0) then inl IndexSizeError
  else inr (mkImageData (cv_bitmap c) (cv_width c) (cv_height c)).

(** *** The video element *)

Record VideoElement := mkVideoElement {
  srcObject : option nat;        (* the bound MediaStream, by reference *)
  loadedmetadata_listener : bool;(* is [process] registered for 'loadedmetadata' *)
  playsinline : bool;
  videoWidth : nat;              (* 0 until metadata is loaded *)
  videoHeight : nat;
  videoFrame : list byte         (* the frame [drawImage] would paint now *)
}.

Definition createVideo : VideoElement := mkVideoElement None false false 0 0 [].

(** Assigning [srcObject] (or calling [load()]) resets the element to
    HAVE_NOTHING: no intrinsic size and no frame until metadata arrives. *)
Definition set_srcObject (o : option nat) (v : VideoElement) : VideoElement :=
  mkVideoElement o (loadedmetadata_listener v) (playsinline v) 0 0 [].

Definition video_load (v : VideoElement) : VideoElement :=
  mkVideoElement (srcObject v) (loadedmetadata_listener v) (playsinline v) 0 0 [].

Definition set_listener (b : bool) (v : VideoElement) : VideoElement :=
  mkVideoElement (srcObject v) b (playsinline v) (videoWidth v) (videoHeight v) (videoFrame v).

Definition set_playsinline (v : VideoElement) : VideoElement :=
  mkVideoElement (srcObject v) (loadedmetadata_listener v) true
    (videoWidth v) (videoHeight v) (videoFrame v).

(** The decoder presents a frame of the given intrinsic size. *)
Definition video_present (vw vh : nat) (frame : list byte) (v : VideoElement) : VideoElement :=
  mkVideoElement (srcObject v) (loadedmetadata_listener v) (playsinline v) vw vh frame.

(** [ctx.drawImage(video, 0, 0)]; camera frames are opaque, so compositing
    onto the canvas is a copy. *)
Definition drawImage (v : VideoElement) (c : Canvas) : Canvas :=
  blit (videoWidth v) (videoHeight v) (videoFrame v) c.

(** *** Tracks, streams, timers, logger *)

Inductive TrackKind := KindVideo | KindAudio.

Global Instance TrackKind_eq_dec : EqDecision TrackKind.
Proof. solve_decision. Defined.

(** The immutable part of a [MediaStreamTrack]; [track_ref] is the
    identity of the object, under which the store keeps its ready state. *)
Record Track := mkTrack {
  track_ref : nat;
  track_id : string;
  track_kind : TrackKind;
  settings_width : nat;
  settings_height : nat
}.

Global Instance Track_eq_dec : EqDecision Track.
Proof. solve_decision. Defined.

Inductive ReadyState := Live | Ended.

Global Instance ReadyState_eq_dec : EqDecision ReadyState.
Proof. solve_decision. Defined.

Record EffectConfig := mkEffectConfig {
  blueShiftEnabled : bool;
  redShiftEnabled : bool
}.

Global Instance EffectConfig_inhabited : Inhabited EffectConfig :=
  populate (mkEffectConfig false false).

Inductive LogLevel := LogInfo | LogWarn | LogError.

(** A pending [setTimeout(this.process, delay)]: its handle, the handler
    whose [process] it will call, and the delay in milliseconds. *)
Record Timer := mkTimer {
  timer_id : nat;
  timer_owner : nat;
  timer_delay : Q
}.

Record World := mkWorld {
  w_streams : gmap nat (list Track);    (* MediaStream objects: their track sets *)
  w_readyState : gmap nat ReadyState;   (* MediaStreamTrack.readyState *)
  w_configs : gmap nat EffectConfig;    (* PremiumVideoEffectConfig objects *)
  w_handlers : gset nat;                (* identities of the stream handlers created *)
  w_timers : list Timer;                (* pending timeouts, oldest first *)
  w_nextTimer : nat;                    (* the next timeout handle *)
  w_log : list (LogLevel * string)      (* what the logger received, oldest first *)
}.

Definition upd_streams (f : gmap nat (list Track) → gmap nat (list Track)) (w : World) : World :=
  mkWorld (f (w_streams w)) (w_readyState w) (w_configs w) (w_handlers w)
          (w_timers w) (w_nextTimer w) (w_log w).

Definition upd_readyState (f : gmap nat ReadyState → gmap nat ReadyState) (w : World) : World :=
  mkWorld (w_streams w) (f (w_readyState w)) (w_configs w) (w_handlers w)
          (w_timers w) (w_nextTimer w) (w_log w).

Definition upd_configs (f : gmap nat EffectConfig → gmap nat EffectConfig) (w : World) : World :=
  mkWorld (w_streams w) (w_readyState w) (f (w_configs w)) (w_handlers w)
          (w_timers w) (w_nextTimer w) (w_log w).

Definition upd_handlers (f : gset nat → gset nat) (w : World) : World :=
  mkWorld (w_streams w) (w_readyState w) (w_configs w) (f (w_handlers w))
          (w_timers w) (w_nextTimer w) (w_log w).

Definition upd_timers (f : list Timer → list Timer) (w : World) : World :=
  mkWorld (w_streams w) (w_readyState w) (w_configs w) (w_handlers w)
          (f (w_timers w)) (w_nextTimer w) (w_log w).

Definition logger (lvl : LogLevel) (msg : string) (w : World) : World :=
  mkWorld (w_streams w) (w_readyState w) (w_configs w) (w_handlers w)
          (w_timers w) (w_nextTimer w) (w_log w ++ [(lvl, msg)]).

(** A page that has created nothing yet; timeout handles start at 1. *)
Definition empty_world : World := mkWorld ∅ ∅ ∅ ∅ [] 1 [].

(** **** MediaStream *)

Definition getTracks (w : World) (s : nat) : list Track :=
  default [] (w_streams w !! s).

Definition is_video (t : Track) : bool := bool_decide (track_kind t = KindVideo).
Definition is_audio (t : Track) : bool := bool_decide (track_kind t = KindAudio).

Definition getVideoTracks (w : World) (s : nat) : list Track :=
  List.filter is_video (getTracks w s).

Definition getAudioTracks (w : World) (s : nat) : list Track :=
  List.filter is_audio (getTracks w s).

Definition same_track (t u : Track) : bool := track_ref t =? track_ref u.

(** [stream.removeTrack(t)] *)
Definition remove_from (t : Track) (l : list Track) : list Track :=
  List.filter (λ u, negb (same_track t u)) l.

Definition removeTrack (s : nat) (t : Track) (w : World) : World :=
  upd_streams <[s := remove_from t (getTracks w s)]> w.

(** [stream.addTrack(t)]: nothing happens when [t] is already in the set. *)
Definition add_to (t : Track) (l : list Track) : list Track :=
  if existsb (same_track t) l then l else l ++ [t].

Definition addTrack (s : nat) (t : Track) (w : World) : World :=
  upd_streams <[s := add_to t (getTracks w s)]> w.

(** [track.stop()] *)
Definition track_stop (t : Track) (w : World) : World :=
  upd_readyState <[track_ref t := Ended]> w.

Definition is_live (w : World) (t : Track) : bool :=
  bool_decide (w_readyState w !! track_ref t = Some Live).

(** [stream.active]: some track of the stream has not ended. *)
Definition active (w : World) (s : nat) : bool :=
  existsb (is_live w) (getTracks w s).

(** Two tracks of a list that have the same identity are the same track. *)
Definition coherent (l : list Track) : Prop :=
  Forall (λ t, Forall (λ u, track_ref t = track_ref u → t = u) l) l.

Global Instance coherent_dec (l : list Track) : Decision (coherent l).
Proof. unfold coherent. apply _. Defined.

(** [new MediaStream()] *)
Definition new_MediaStream (w : World) : nat * World :=
  let s := fresh (dom (w_streams w)) in
  (s, upd_streams <[s := []]> w).

(** [canvas.captureStream(frameRate)]: a new stream holding one new, live
    video track whose settings are the canvas's dimensions. *)
Definition captureStream (c : Canvas) (frameRate : Q) (w : World) : nat * World :=
  let r := fresh (dom (w_readyState w)) in
  let t := mkTrack r (pretty r) KindVideo (cv_width c) (cv_height c) in
  let s := fresh (dom (w_streams w)) in
  (s, upd_streams <[s := [t]]> (upd_readyState <[r := Live]> w)).

(** **** Timers *)

Definition setTimeout (owner : nat) (delay : Q) (w : World) : nat * World :=
  let id := w_nextTimer w in
  (id, mkWorld (w_streams w) (w_readyState w) (w_configs w) (w_handlers w)
               (w_timers w ++ [mkTimer id owner delay]) (S id) (w_log w)).

Definition clearTimeout (id : nat) (w : World) : World :=
  upd_timers (List.filter (λ t, negb (timer_id t =? id))) w.

Definition pending (w : World) : list nat := timer_id <$> w_timers w.

(** ** PremiumVideoEffectDriver *)

Module PremiumVideoEffectDriver.

Definition CHANNEL_COUNT : nat := 4.
Definition MAX_PIXEL_VAL : Z := 255.

(** The driver's fields are never reassigned; the configuration object
    it points to is shared and mutable. *)
Record t := mk { config : nat }.

Definition constructor (cfg : nat) (w : World) : t * World :=
  (mk cfg, logger LogInfo "PremiumVideoEffectDriver Created" w).

Definition getEffectConfig (this : t) : nat := config this.

Definition read_config (this : t) (w : World) : EffectConfig :=
  w_configs w !!! config this.

Definition transformData (cfg : EffectConfig) (currentPixel : Z) (idx : nat) : Z :=
  if redShiftEnabled cfg && (idx mod CHANNEL_COUNT =? 0) then MAX_PIXEL_VAL
  else if blueShiftEnabled cfg && (idx mod CHANNEL_COUNT =? 2) then MAX_PIXEL_VAL
  else currentPixel.

Definition apply (this : t) (w : World) (inputImageData : ImageData)
  : DOMException + ImageData :=
  let rawOutputData :=
    Uint8ClampedArray_map (transformData (read_config this w)) (data inputImageData) in
  new_ImageData rawOutputData (width inputImageData) (height inputImageData).

Definition setBlueShiftState (this : t) (enabled : bool) (w : World) : World :=
  upd_configs (alter (λ c, mkEffectConfig enabled (redShiftEnabled c)) (config this)) w.

Definition setRedShiftState (this : t) (enabled : bool) (w : World) : World :=
  upd_configs (alter (λ c, mkEffectConfig (blueShiftEnabled c) enabled) (config this)) w.

End PremiumVideoEffectDriver.

(** ** PremiumVideoStreamHandler *)

Module PremiumVideoStreamHandler.

Definition DEFAULT_FRAMERATE : Q := 15.
Definition MIN_FRAME_DELAY : Q := 0.
Definition MS_PER_SECOND : Q := 1000.

(** The class declares the field [lastTimeOut] and [stop] reads it;
    [process] assigns the property [lastTimeout]. They are two different
    properties of the object, so the record has both. *)
Record t := mk {
  self : nat;                        (* identity of this handler *)
  framerate : Q;
  lastTimeOut : option nat;
  lastTimeout : option nat;
  videoInput : VideoElement;
  canvasInput : Canvas;
  inputVideoStream : option nat;
  canvasOutput : Canvas;
  outputMediaStream : nat;
  videoEffectDriver : PremiumVideoEffectDriver.t
}.

Definition set_lastTimeOut (v : option nat) (h : t) : t :=
  mk (self h) (framerate h) v (lastTimeout h) (videoInput h) (canvasInput h)
     (inputVideoStream h) (canvasOutput h) (outputMediaStream h) (videoEffectDriver h).

Definition set_lastTimeout (v : option nat) (h : t) : t :=
  mk (self h) (framerate h) (lastTimeOut h) v (videoInput h) (canvasInput h)
     (inputVideoStream h) (canvasOutput h) (outputMediaStream h) (videoEffectDriver h).

Definition set_videoInput (v : VideoElement) (h : t) : t :=
  mk (self h) (framerate h) (lastTimeOut h) (lastTimeout h) v (canvasInput h)
     (inputVideoStream h) (canvasOutput h) (outputMediaStream h) (videoEffectDriver h).

Definition set_canvasInput (c : Canvas) (h : t) : t :=
  mk (self h) (framerate h) (lastTimeOut h) (lastTimeout h) (videoInput h) c
     (inputVideoStream h) (canvasOutput h) (outputMediaStream h) (videoEffectDriver h).

Definition set_inputVideoStream (s : option nat) (h : t) : t :=
  mk (self h) (framerate h) (lastTimeOut h) (lastTimeout h) (videoInput h) (canvasInput h)
     s (canvasOutput h) (outputMediaStream h) (videoEffectDriver h).

Definition set_canvasOutput (c : Canvas) (h : t) : t :=
  mk (self h) (framerate h) (lastTimeOut h) (lastTimeout h) (videoInput h) (canvasInput h)
     (inputVideoStream h) c (outputMediaStream h) (videoEffectDriver h).

Definition set_outputMediaStream (s : nat) (h : t) : t :=
  mk (self h) (framerate h) (lastTimeOut h) (lastTimeout h) (videoInput h) (canvasInput h)
     (inputVideoStream h) (canvasOutput h) s (videoEffectDriver h).

(** Field initialisers and constructor: a video element, two canvases
    and an empty [MediaStream]. *)
Definition constructor (driver : PremiumVideoEffectDriver.t) (w : World) : t * World :=
  let id := fresh (w_handlers w) in
  let '(out, w1) := new_MediaStream w in
  (mk id DEFAULT_FRAMERATE None None createVideo createCanvas None createCanvas out driver,
   upd_handlers (union {[id]}) w1).

Definition isOutputMediaStreamActive (this : t) (w : World) : bool :=
  active w (outputMediaStream this).

Definition remove_audio (out : nat) (w : World) (audioTrack : Track) : World :=
  removeTrack out audioTrack
    (logger LogInfo ("Removing audio track " +:+ track_id audioTrack +:+ " from output stream") w).

Definition add_audio (out : nat) (w : World) (audioTrack : Track) : World :=
  addTrack out audioTrack
    (logger LogInfo ("Adding audio track " +:+ track_id audioTrack +:+ " to output stream") w).

(** Each [for ... of] loop runs over the array that [getAudioTracks()]
    returned when the loop started. *)
Definition cloneInputAudioTracksToOutput (this : t) (w : World) : World :=
  match inputVideoStream this with
  | Some input =>
      if negb (isOutputMediaStreamActive this w) then
        logger LogInfo
          "Not cloning input audio tracks to output, do not have media streams ready" w
      else
        let out := outputMediaStream this in
        let w1 := foldl (remove_audio out) w (getAudioTracks w out) in
        foldl (add_audio out) w1 (getAudioTracks w1 input)
  | None =>
      logger LogInfo
        "Not cloning input audio tracks to output, do not have media streams ready" w
  end.

Definition getActiveOutputMediaStream (this : t) (w : World) : t * World * nat :=
  if isOutputMediaStreamActive this w then (this, w, outputMediaStream this)
  else
    let '(s, w1) := captureStream (canvasOutput this) (framerate this) w in
    let this1 := set_outputMediaStream s this in
    (this1, cloneInputAudioTracksToOutput this1 w1, outputMediaStream this1).

Definition destroyInputMediaAndBuffers (this : t) (w : World) : t * World :=
  (set_inputVideoStream None this,
   match inputVideoStream this with
   | Some s => foldl (λ w tr, track_stop tr w) w (getTracks w s)
   | None => w
   end).

(** Truthiness of a timeout handle ([undefined] and [0] are falsy). *)
Definition truthy (o : option nat) : bool :=
  match o with Some (S _) => true | _ => false end.

Definition stop (this : t) (w : World) : t * World :=
  let this1 := set_videoInput (set_srcObject None (set_listener false (videoInput this))) this in
  let '(this2, w2) := destroyInputMediaAndBuffers this1 w in
  let w3 := foldl (λ w tr, track_stop tr w) w2 (getTracks w2 (outputMediaStream this2)) in
  if truthy (lastTimeOut this2) then
    (set_lastTimeOut None this2, clearTimeout (default 0 (lastTimeOut this2)) w3)
  else (this2, w3).

(** One tick. [latency] is the difference of the two [performance.now()]
    readings. The body has a single [await], on [apply], which does not
    wait for anything outside: the tick runs as one step. An exception
    rejects the promise of the tick and nothing is scheduled. *)
Definition process (latency : Q) (this : t) (w : World) : t * World * Completion :=
  match inputVideoStream this with
  | None => (this, w, Fulfilled)
  | Some _ =>
      let v := videoInput this in
      let this1 :=
        if negb (videoWidth v =? 0) then
          set_canvasInput
            (drawImage v (set_canvas_height (videoHeight v)
                            (set_canvas_width (videoWidth v) (canvasInput this)))) this
        else this in
      match getImageData (canvasInput this1) with
      | inl e => (this1, w, Rejected e)
      | inr inputImageData =>
          match PremiumVideoEffectDriver.apply (videoEffectDriver this1) w inputImageData with
          | inl e => (this1, w, Rejected e)
          | inr transformedImageData =>
              let this2 :=
                if negb (cv_width (canvasOutput this1) =? videoWidth v)
                   && negb (cv_height (canvasOutput this1) =? videoHeight v)
                then set_canvasOutput
                       (set_canvas_height (videoHeight v)
                          (set_canvas_width (videoWidth v) (canvasOutput this1))) this1
                else this1 in
              let this3 :=
                set_canvasOutput (putImageData transformedImageData (canvasOutput this2)) this2 in
              let nextFrameDelay :=
                Qmax MIN_FRAME_DELAY (MS_PER_SECOND / framerate this3 - latency) in
              let '(id, w1) := setTimeout (self this3) nextFrameDelay w in
              (set_lastTimeout (Some id) this3, w1, Fulfilled)
          end
      end
  end.

(** [play_ok] tells whether the promise of [videoInput.play()] was
    fulfilled. The function is run as one step: what the page does while
    that promise is pending is modelled as happening after it. *)
Definition startVideoOnMediaStream (play_ok : bool) (inputMediaStream : nat)
    (this : t) (w : World) : t * World * Completion :=
  match inputVideoStream this with
  | None => (this, w, Rejected TypeError)
  | Some input =>
      match getVideoTracks w input with
      | [] => (this, w, Rejected TypeError)
      | track0 :: _ =>
          let out :=
            set_canvas_height (settings_height track0)
              (set_canvas_width (settings_width track0) (canvasOutput this)) in
          let v :=
            video_load (set_playsinline
              (set_srcObject (inputVideoStream this) (set_listener true (videoInput this)))) in
          (set_videoInput v (set_canvasOutput out this),
           if play_ok then w
           else logger LogWarn "Video element play() overriden by another load()" w,
           Fulfilled)
      end
  end.

Definition setInputMediaStream (play_ok : bool) (inputMediaStream : option nat)
    (this : t) (w : World) : t * World * Completion :=
  match inputMediaStream with
  | None => (stop this w, Fulfilled)
  | Some s =>
      if length (getVideoTracks w s) =? 0 then
        (this, logger LogError "No video tracks in input media stream, ignoring" w, Fulfilled)
      else
        let this1 := set_inputVideoStream (Some s) this in
        match startVideoOnMediaStream play_ok s this1 w with
        | (this2, w2, Rejected e) => (this2, w2, Rejected e)
        | (this2, w2, Fulfilled) => (this2, cloneInputAudioTracksToOutput this2 w2, Fulfilled)
        end
  end.

(** *** What the page does to the handler *)

(** The video element learns the size of its source and dispatches
    'loadedmetadata'. *)
Definition dispatch_loadedmetadata (vw vh : nat) (frame : list byte) (latency : Q)
    (this : t) (w : World) : t * World * Completion :=
  let this1 := set_videoInput (video_present vw vh frame (videoInput this)) this in
  if loadedmetadata_listener (videoInput this1) then process latency this1 w
  else (this1, w, Fulfilled).

(** The decoder moves on to another frame (possibly of another size). *)
Definition next_frame (vw vh : nat) (frame : list byte) (this : t) : t :=
  set_videoInput (video_present vw vh frame (videoInput this)) this.

Definition owns (this : t) (id : nat) (tm : Timer) : bool :=
  (timer_id tm =? id) && (timer_owner tm =? self this).

(** A pending timeout of this handler expires: it leaves the queue and
    [process] runs. A handle that is not pending does nothing. *)
Definition fire_timer (id : nat) (latency : Q) (this : t) (w : World)
  : t * World * Completion :=
  if existsb (owns this id) (w_timers w) then
    process latency this (upd_timers (List.filter (λ tm, negb (owns this id tm))) w)
  else (this, w, Fulfilled).

(** The states a handler goes through: it is created, then driven by
    its public methods and by the events of the page. *)
Inductive reachable : t → World → Prop :=
| reach_constructor driver w :
    reachable (constructor driver w).1 (constructor driver w).2
| reach_setInputMediaStream play_ok ms h w :
    reachable h w →
    reachable (setInputMediaStream play_ok ms h w).1.1
              (setInputMediaStream play_ok ms h w).1.2
| reach_getActiveOutputMediaStream h w :
    reachable h w →
    reachable (getActiveOutputMediaStream h w).1.1 (getActiveOutputMediaStream h w).1.2
| reach_stop h w :
    reachable h w → reachable (stop h w).1 (stop h w).2
| reach_loadedmetadata vw vh frame latency h w :
    reachable h w →
    reachable (dispatch_loadedmetadata vw vh frame latency h w).1.1
              (dispatch_loadedmetadata vw vh frame latency h w).1.2
| reach_next_frame vw vh frame h w :
    reachable h w → reachable (next_frame vw vh frame h) w
| reach_fire_timer id latency h w :
    reachable h w →
    reachable (fire_timer id latency h w).1.1 (fire_timer id latency h w).1.2.

End PremiumVideoStreamHandler.

(** ** PremiumVideoTransformDevice *)

Module PremiumVideoTransformDevice.

(** [Device = string | MediaTrackConstraints | MediaStream | null] *)
Inductive Device :=
| DeviceNull
| DeviceId (id : string)
| DeviceConstraints (deviceId : string)
| DeviceStream (s : nat).

Record t := mk {
  device : Device;
  videoEffectDriver : PremiumVideoEffectDriver.t;
  inputMediaStream : option nat;
  premiumVideoStreamHandler : PremiumVideoStreamHandler.t
}.

Definition constructor (device : Device) (driver : PremiumVideoEffectDriver.t)
    (w : World) : t * World :=
  let '(h, w1) := PremiumVideoStreamHandler.constructor driver w in
  (mk device driver None h, w1).

Definition stop_video_tracks (o : option nat) (w : World) : World :=
  match o with
  | Some s => foldl (λ w tr, track_stop tr w) w (getVideoTracks w s)
  | None => w
  end.

Definition stop (this : t) (w : World) : t * World :=
  (mk (device this) (videoEffectDriver this) None (premiumVideoStreamHandler this),
   stop_video_tracks (inputMediaStream this) w).

Definition intrinsicDevice (this : t) : Device := device this.

Definition transformStream (play_ok : bool) (mediaStream : option nat)
    (this : t) (w : World) : t * World * (DOMException + nat) :=
  match PremiumVideoStreamHandler.setInputMediaStream play_ok mediaStream
          (premiumVideoStreamHandler this) w with
  | (h1, w1, Rejected e) =>
      (mk (device this) (videoEffectDriver this) (inputMediaStream this) h1, w1, inl e)
  | (h1, w1, Fulfilled) =>
      let '(h2, w2, out) := PremiumVideoStreamHandler.getActiveOutputMediaStream h1 w1 in
      (mk (device this) (videoEffectDriver this) mediaStream h2, w2, inr out)
  end.

(** [this.device && (this.device as MediaStream).id]: only a
    [MediaStream] has an [id]. *)
Definition deviceIsMediaStream (d : Device) : bool :=
  match d with DeviceStream _ => true | _ => false end.

Definition onOutputStreamDisconnect (this : t) (w : World) : World :=
  let w1 := logger LogInfo "DefaultVideoTransformDevice: detach stopping input media stream" w in
  if negb (deviceIsMediaStream (device this)) then stop_video_tracks (inputMediaStream this) w1
  else w1.

Definition outputMediaStream (this : t) : nat :=
  PremiumVideoStreamHandler.outputMediaStream (premiumVideoStreamHandler this).

Definition chooseNewInnerDevice (this : t) (newDevice : Device) (w : World) : t * World :=
  constructor newDevice (videoEffectDriver this) w.

Definition getInnerDevice (this : t) : Device := device this.

End PremiumVideoTransformDevice.

(** ** Well-formedness of what the browser keeps *)

(** The bitmap of a canvas has four bytes for each of its pixels. *)
Definition wf_canvas (c : Canvas) : Prop :=
  length (cv_bitmap c) = cv_width c * cv_height c * 4.

(** Every track of the stream is an object of the page: the store knows
    its ready state. *)
Definition tracked (w : World) (s : nat) : Prop :=
  Forall (λ tr, is_Some (w_readyState w !! track_ref tr)) (getTracks w s).

Global Instance tracked_dec (w : World) (s : nat) : Decision (tracked w s).
Proof. unfold tracked. apply _. Defined.

(** The world [stop] leaves behind, whatever is under [lastTimeOut]. *)
Definition stopped_world (this : PremiumVideoStreamHandler.t) (w : World) : World :=
  foldl (λ w tr, track_stop tr w)
    (match PremiumVideoStreamHandler.inputVideoStream this with
     | Some s => foldl (λ w tr, track_stop tr w) w (getTracks w s)
     | None => w
     end)
    (getTracks w (PremiumVideoStreamHandler.outputMediaStream this)).

(** The two canvas steps of [process], named: the capture surface takes
    the size of the video and its current frame (when the video has a width),
    and the sink is resized when both of its dimensions differ from the
    video's. *)
Definition capture (this : PremiumVideoStreamHandler.t) : PremiumVideoStreamHandler.t :=
  let v := PremiumVideoStreamHandler.videoInput this in
  if negb (videoWidth v =? 0) then
    PremiumVideoStreamHandler.set_canvasInput
      (drawImage v (set_canvas_height (videoHeight v)
                      (set_canvas_width (videoWidth v)
                         (PremiumVideoStreamHandler.canvasInput this)))) this
  else this.

Definition resize_sink (v : VideoElement) (this1 : PremiumVideoStreamHandler.t)
  : PremiumVideoStreamHandler.t :=
  if negb (cv_width (PremiumVideoStreamHandler.canvasOutput this1) =? videoWidth v)
     && negb (cv_height (PremiumVideoStreamHandler.canvasOutput this1) =? videoHeight v)
  then PremiumVideoStreamHandler.set_canvasOutput
         (set_canvas_height (videoHeight v)
            (set_canvas_width (videoWidth v)
               (PremiumVideoStreamHandler.canvasOutput this1))) this1
  else this1.

(** ** A page with a camera, a screen share and a microphone *)

Module Scenario.
Import PremiumVideoStreamHandler.

Definition camera_video : Track := mkTrack 1 "camera-video" KindVideo 2 1.
Definition camera_audio : Track := mkTrack 2 "camera-audio" KindAudio 0 0.
Definition screen_video : Track := mkTrack 3 "screen-video" KindVideo 1 1.
Definition mic_audio : Track := mkTrack 4 "mic-audio" KindAudio 0 0.

(** Stream 10 is the camera (video 2 x 1 and audio), stream 11 a screen
    share (video 1 x 1, no audio), stream 12 a microphone (no video). *)
Definition camera : nat := 10.
Definition screen : nat := 11.
Definition mic : nat := 12.

Definition page : World :=
  mkWorld
    (<[camera := [camera_video; camera_audio]]>
       (<[screen := [screen_video]]> (<[mic := [mic_audio]]> ∅)))
    (<[1 := Live]> (<[2 := Live]> (<[3 := Live]> (<[4 := Live]> ∅))))
    (<[0 := mkEffectConfig false false]> ∅)
    ∅ [] 1 [].

Definition driver : PremiumVideoEffectDriver.t := PremiumVideoEffectDriver.mk 0.

Definition frameA : list byte := [x10; x20; x30; xff; x40; x50; x60; xff].
Definition frameB : list byte := [x01; x02; x03; xff].
Definition frameC : list byte := [x0a; x0b; x0c; xff].
Definition frameTall : list byte :=
  [x10; x20; x30; xff; x40; x50; x60; xff; x70; x80; x90; xff; xa0; xb0; xc0; xff].

(** A new handler; the camera is bound; its metadata arrives and the
    first tick runs. *)
Definition created : t * World := constructor driver page.
Definition bound : t * World * Completion :=
  setInputMediaStream true (Some camera) created.1 created.2.
Definition ticking : t * World * Completion :=
  dispatch_loadedmetadata 2 1 frameA 0 bound.1.1 bound.1.2.

(** [stop()] while the tick scheduled by [ticking] is pending. *)
Definition stopped : t * World := stop ticking.1.1 ticking.1.2.

(** The pending tick expires with nothing bound. *)
Definition stopped_fired : t * World * Completion :=
  fire_timer 1 0 stopped.1 stopped.2.

(** Instead, the screen share is bound after [stop()] and shows its
    first frame; then the tick left over from the camera expires. *)
Definition restarted : t * World * Completion :=
  setInputMediaStream true (Some screen) stopped.1 stopped.2.
Definition restarted_ticking : t * World * Completion :=
  dispatch_loadedmetadata 1 1 frameB 0 restarted.1.1 restarted.1.2.
Definition leftover_fired : t * World * Completion :=
  fire_timer 1 0 (next_frame 1 1 frameC restarted_ticking.1.1) restarted_ticking.1.2.

(** The screen share is bound while the camera's chain is in flight
    (no [stop()] in between), and its metadata arrives. *)
Definition rebound : t * World * Completion :=
  setInputMediaStream true (Some screen) ticking.1.1 ticking.1.2.
Definition rebound_ticking : t * World * Completion :=
  dispatch_loadedmetadata 1 1 frameB 0 rebound.1.1 rebound.1.2.

(** The camera delivers 2 x 2 frames although its settings said 2 x 1. *)
Definition tall : t * World * Completion :=
  dispatch_loadedmetadata 2 2 frameTall 0 bound.1.1 bound.1.2.

(** A device on that camera; then the microphone stream, which has no
    video track, is passed to it. *)
Definition device_created : PremiumVideoTransformDevice.t * World :=
  PremiumVideoTransformDevice.constructor
    (PremiumVideoTransformDevice.DeviceId "camera-1") driver page.
Definition device_active : PremiumVideoTransformDevice.t * World * (DOMException + nat) :=
  PremiumVideoTransformDevice.transformStream true (Some camera)
    device_created.1 device_created.2.
Definition device_refused : PremiumVideoTransformDevice.t * World * (DOMException + nat) :=
  PremiumVideoTransformDevice.transformStream true (Some mic)
    device_active.1.1 device_active.1.2.

(** The handler once its output was requested (so that it is active and
    carries the camera's audio track); then the screen share is being bound:
    the state in which [setInputMediaStream] calls the audio
    synchronisation. *)
Definition with_output : t * World * nat :=
  getActiveOutputMediaStream bound.1.1 bound.1.2.
Definition stale_audio : t * World :=
  (startVideoOnMediaStream true screen
     (set_inputVideoStream (Some screen) with_output.1.1) with_output.1.2).1.

(** The same page once red shift was switched on, and the camera's frame
    as image data. *)
Definition red_page : World := PremiumVideoEffectDriver.setRedShiftState driver true page.
Definition imageA : ImageData := mkImageData frameA 2 1.

(** What red shift makes of the camera's frame. *)
Definition imageA_red : ImageData :=
  mkImageData [xff; x20; x30; xff; xff; x50; x60; xff] 2 1.


End Scenario.

(** * Properties *)

(** ** The effect driver *)

Section EffectDriver.
Import PremiumVideoEffectDriver.

Lemma toUint8Clamp_byte_value (b : byte) : toUint8Clamp (byte_value b) = b.
Proof.
  unfold toUint8Clamp, byte_value.
  pose proof (Byte.to_N_bounded b) as Hb.
  rewrite Z.min_r by lia. rewrite Z.max_r by lia.
  rewrite N2Z.id, Byte.of_to_N. reflexivity.
Qed.

Lemma toUint8Clamp_max : toUint8Clamp MAX_PIXEL_VAL = xff.
Proof. reflexivity. Qed.

Lemma new_ImageData_ok (d : list byte) (sw sh : nat) :
  0 < sw → 0 < sh → length d = sw * sh * 4 →
  new_ImageData d sw sh = inr (mkImageData d sw sh).
Proof.
  intros Hw Hh Hlen. unfold new_ImageData. rewrite Hlen.
  assert (H4 : (sw * sh * 4) mod 4 = 0) by (apply Nat.Div0.mod_mul).
  assert (Hd : sw * sh * 4 / 4 = sw * sh) by (apply Nat.div_mul; lia).
  assert (Hm : (sw * sh) mod sw = 0) by (rewrite Nat.mul_comm; apply Nat.Div0.mod_mul).
  assert (Hq : sw * sh / sw = sh) by (rewrite Nat.mul_comm; apply Nat.div_mul; lia).
  rewrite H4, Hd, Hm, Hq.
  replace (sw * sh * 4 =? 0) with false by (symmetry; apply Nat.eqb_neq; nia).
  replace (sw =? 0) with false by (symmetry; apply Nat.eqb_neq; lia).
  rewrite Nat.eqb_refl. simpl. rewrite Nat.eqb_refl. reflexivity.
Qed.

Lemma transformData_stored (cfg : EffectConfig) (b : byte) (idx : nat) :
  toUint8Clamp (transformData cfg (byte_value b) idx) =
    if redShiftEnabled cfg && (idx mod 4 =? 0) then xff
    else if blueShiftEnabled cfg && (idx mod 4 =? 2) then xff
    else b.
Proof.
  unfold transformData, CHANNEL_COUNT.
  destruct (redShiftEnabled cfg && (idx mod 4 =? 0)); [apply toUint8Clamp_max|].
  destruct (blueShiftEnabled cfg && (idx mod 4 =? 2)); [apply toUint8Clamp_max|].
  apply toUint8Clamp_byte_value.
Qed.

(** C4. For an image whose buffer has [width * height * 4] bytes and
    for any flag configuration, [apply] returns an image of the same width
    and height whose byte at [idx] is 255 when red shift is on and
    [idx % 4 == 0], else 255 when blue shift is on and [idx % 4 == 2],
    else the input byte; no index meets both conditions. *)
Theorem C4_apply_pointwise (this : t) (w : World) (img : ImageData) :
  wf_ImageData img →
  ∃ out,
    apply this w img = inr out
    ∧ width out = width img
    ∧ height out = height img
    ∧ length (data out) = length (data img)
    ∧ (∀ idx b, data img !! idx = Some b →
         data out !! idx =
           Some (if redShiftEnabled (read_config this w) && (idx mod 4 =? 0) then xff
                 else if blueShiftEnabled (read_config this w) && (idx mod 4 =? 2) then xff
                 else b))
    ∧ (∀ idx, (idx mod 4 =? 0) && (idx mod 4 =? 2) = false).
Proof.
  intros (Hw & Hh & Hlen).
  eexists. split.
  { unfold apply. apply new_ImageData_ok; [exact Hw | exact Hh |].
    unfold Uint8ClampedArray_map. rewrite length_imap. exact Hlen. }
  cbn [width height data]. repeat split.
  - unfold Uint8ClampedArray_map. apply length_imap.
  - intros idx b Hb. unfold Uint8ClampedArray_map.
    rewrite list_lookup_imap, Hb. simpl. f_equal. apply transformData_stored.
  - intros idx. destruct (Nat.eqb_spec (idx mod 4) 0) as [E|E]; [|reflexivity].
    rewrite E. reflexivity.
Qed.

(** C5. With both flags off, [apply] returns the image it was given,
    byte for byte. *)
Theorem C5_apply_identity (this : t) (w : World) (img : ImageData) :
  wf_ImageData img →
  blueShiftEnabled (read_config this w) = false →
  redShiftEnabled (read_config this w) = false →
  apply this w img = inr img.
Proof.
  intros (Hw & Hh & Hlen) Hblue Hred.
  assert (Hraw : Uint8ClampedArray_map (transformData (read_config this w)) (data img)
                 = data img).
  { apply list_eq. intros i. unfold Uint8ClampedArray_map. rewrite list_lookup_imap.
    destruct (data img !! i) as [b|]; [|reflexivity]. simpl. f_equal.
    rewrite transformData_stored, Hblue, Hred. reflexivity. }
  unfold apply. rewrite Hraw. rewrite new_ImageData_ok by assumption.
  destruct img; reflexivity.
Qed.

End EffectDriver.

(** ** Media streams in the store *)

Section MediaStreams.

Lemma coherent_spec (l : list Track) (t u : Track) :
  coherent l → t ∈ l → u ∈ l → track_ref t = track_ref u → t = u.
Proof.
  unfold coherent. rewrite Forall_forall. intros H Ht Hu.
  specialize (H t Ht). rewrite Forall_forall in H. exact (H u Hu).
Qed.

Lemma coherent_subseteq (l k : list Track) : k ⊆ l → coherent l → coherent k.
Proof.
  intros Hsub Hl. unfold coherent. rewrite Forall_forall. intros t Ht.
  rewrite Forall_forall. intros u Hu. apply (coherent_spec l); auto.
Qed.

Lemma same_track_refl (t : Track) : same_track t t = true.
Proof. apply Nat.eqb_refl. Qed.

Lemma same_track_eq (t u : Track) : same_track t u = true ↔ track_ref t = track_ref u.
Proof. apply Nat.eqb_eq. Qed.

Lemma is_audio_not_video (t : Track) : is_audio t = negb (is_video t).
Proof. unfold is_audio, is_video. destruct (track_kind t); reflexivity. Qed.

Lemma getTracks_logger lvl msg w s : getTracks (logger lvl msg w) s = getTracks w s.
Proof. reflexivity. Qed.

Lemma getTracks_removeTrack s t w s' :
  getTracks (removeTrack s t w) s' =
    if decide (s' = s) then remove_from t (getTracks w s) else getTracks w s'.
Proof.
  unfold removeTrack, getTracks at 1. cbn [upd_streams w_streams].
  case_decide as E.
  - subst. rewrite lookup_insert_eq. reflexivity.
  - rewrite lookup_insert_ne by congruence. reflexivity.
Qed.

Lemma getTracks_addTrack s t w s' :
  getTracks (addTrack s t w) s' =
    if decide (s' = s) then add_to t (getTracks w s) else getTracks w s'.
Proof.
  unfold addTrack, getTracks at 1. cbn [upd_streams w_streams].
  case_decide as E.
  - subst. rewrite lookup_insert_eq. reflexivity.
  - rewrite lookup_insert_ne by congruence. reflexivity.
Qed.

Lemma getTracks_track_stop t w s : getTracks (track_stop t w) s = getTracks w s.
Proof. reflexivity. Qed.

(** *** Removing and adding in a loop, on the track list itself *)

Lemma foldl_remove_from (A l : list Track) :
  foldl (λ l a, remove_from a l) l A =
    List.filter (λ u, forallb (λ a, negb (same_track a u)) A) l.
Proof.
  revert l. induction A as [|a A IH]; intros l; cbn [foldl forallb].
  - induction l as [|u l IHl]; [reflexivity|]. cbn. f_equal. exact IHl.
  - rewrite IH. unfold remove_from. clear IH.
    induction l as [|u l IHl]; [reflexivity|]. cbn [List.filter].
    destruct (negb (same_track a u)); cbn [List.filter andb]; [|exact IHl].
    destruct (forallb _ A); [f_equal|]; exact IHl.
Qed.

Lemma remove_all_audio (l : list Track) :
  coherent l →
  foldl (λ l a, remove_from a l) l (List.filter is_audio l) = List.filter is_video l.
Proof.
  intros Hl. rewrite foldl_remove_from.
  apply List.filter_ext_in. intros u Hu. apply list_elem_of_In in Hu.
  destruct (is_video u) eqn:Ev.
  - apply forallb_forall. intros a Ha. apply List.filter_In in Ha as [Ha Haud].
    apply list_elem_of_In in Ha.
    destruct (same_track a u) eqn:Es; [|reflexivity].
    apply same_track_eq in Es. apply (coherent_spec l) in Es; [|assumption..].
    subst a. rewrite is_audio_not_video, Ev in Haud. discriminate.
  - apply not_true_is_false. intros Hall. rewrite forallb_forall in Hall.
    specialize (Hall u). rewrite same_track_refl in Hall.
    assert (In u (List.filter is_audio l)) as Hin.
    { apply List.filter_In. split; [apply list_elem_of_In; exact Hu|].
      rewrite is_audio_not_video, Ev. reflexivity. }
    specialize (Hall Hin). discriminate.
Qed.

Lemma add_to_prefix (a : Track) (l : list Track) : l `prefix_of` add_to a l.
Proof.
  unfold add_to. destruct (existsb _ l); [reflexivity|]. by apply prefix_app_r.
Qed.

Lemma foldl_add_to_prefix (A l : list Track) : l `prefix_of` foldl (λ l a, add_to a l) l A.
Proof.
  revert l. induction A as [|a A IH]; intros l; cbn [foldl]; [reflexivity|].
  etrans; [apply (add_to_prefix a)|apply IH].
Qed.

Lemma foldl_add_to_fresh (A l : list Track) :
  NoDup (track_ref <$> A) →
  (∀ a u, a ∈ A → u ∈ l → track_ref a ≠ track_ref u) →
  foldl (λ l a, add_to a l) l A = l ++ A.
Proof.
  revert l. induction A as [|a A IH]; intros l Hnd Hfresh; cbn [foldl].
  - by rewrite app_nil_r.
  - rewrite fmap_cons in Hnd. apply NoDup_cons in Hnd as [Hna Hnd].
    assert (add_to a l = l ++ [a]) as ->.
    { unfold add_to. destruct (existsb (same_track a) l) eqn:E; [|reflexivity].
      apply existsb_exists in E as (u & Hu & Es). apply same_track_eq in Es.
      exfalso. apply (Hfresh a u); [apply list_elem_of_here | | exact Es].
      by apply list_elem_of_In. }
    rewrite IH; [by rewrite <- app_assoc | exact Hnd |].
    intros a' u Ha' Hu. apply elem_of_app in Hu as [Hu|Hu].
    + apply Hfresh; [by apply list_elem_of_further | exact Hu].
    + apply list_elem_of_singleton in Hu. subst u. intros Heq. apply Hna.
      rewrite <- Heq. apply list_elem_of_fmap. eauto.
Qed.

Lemma coherent_NoDup_refs (l : list Track) :
  coherent l → NoDup l → NoDup (track_ref <$> l).
Proof.
  intros Hc Hnd. apply NoDup_fmap_2_strong; [|exact Hnd].
  intros t u Ht Hu. by apply (coherent_spec l).
Qed.

End MediaStreams.

(** ** The stream handler: audio synchronisation *)

Section AudioSync.
Import PremiumVideoStreamHandler.

Lemma filter_audio_of_video (l : list Track) :
  List.filter is_audio (List.filter is_video l) = [].
Proof.
  induction l as [|u l IH]; [reflexivity|]. cbn [List.filter].
  destruct (is_video u) eqn:E; [|exact IH]. cbn [List.filter].
  rewrite is_audio_not_video, E. exact IH.
Qed.

Lemma filter_video_of_audio (l : list Track) :
  List.filter is_video (List.filter is_audio l) = [].
Proof.
  induction l as [|u l IH]; [reflexivity|]. cbn [List.filter].
  destruct (is_audio u) eqn:E; [|exact IH]. cbn [List.filter].
  rewrite is_audio_not_video in E. apply negb_true_iff in E. rewrite E. exact IH.
Qed.

Lemma filter_twice {A} (f : A → bool) (l : list A) :
  List.filter f (List.filter f l) = List.filter f l.
Proof.
  induction l as [|u l IH]; [reflexivity|]. cbn [List.filter].
  destruct (f u) eqn:E; [|exact IH]. cbn [List.filter]. rewrite E. by f_equal.
Qed.

Lemma elem_of_filter_list {A} (f : A → bool) (l : list A) (x : A) :
  x ∈ List.filter f l ↔ x ∈ l ∧ f x = true.
Proof. rewrite !list_elem_of_In. apply List.filter_In. Qed.

Lemma NoDup_filter_list {A} (f : A → bool) (l : list A) :
  NoDup l → NoDup (List.filter f l).
Proof.
  induction 1 as [|x l Hx Hl IH]; cbn [List.filter]; [constructor|].
  destruct (f x); [|exact IH]. constructor; [|exact IH].
  rewrite elem_of_filter_list. tauto.
Qed.

Lemma getTracks_remove_audio (out : nat) (A : list Track) (w : World) (s : nat) :
  getTracks (foldl (remove_audio out) w A) s =
    if decide (s = out) then foldl (λ l a, remove_from a l) (getTracks w out) A
    else getTracks w s.
Proof.
  revert w. induction A as [|a A IH]; intros w; cbn [foldl].
  - by case_decide; subst.
  - rewrite IH. unfold remove_audio. rewrite !getTracks_removeTrack, !getTracks_logger.
    rewrite (decide_True (P := out = out)) by reflexivity.
    case_decide; reflexivity.
Qed.

Lemma getTracks_add_audio (out : nat) (A : list Track) (w : World) (s : nat) :
  getTracks (foldl (add_audio out) w A) s =
    if decide (s = out) then foldl (λ l a, add_to a l) (getTracks w out) A
    else getTracks w s.
Proof.
  revert w. induction A as [|a A IH]; intros w; cbn [foldl].
  - by case_decide; subst.
  - rewrite IH. unfold add_audio. rewrite !getTracks_addTrack, !getTracks_logger.
    rewrite (decide_True (P := out = out)) by reflexivity.
    case_decide; reflexivity.
Qed.

(** The loops touch the track sets and the log, nothing else. *)
Lemma remove_audio_frame (out : nat) (A : list Track) (w : World) :
  let w' := foldl (remove_audio out) w A in
  w_readyState w' = w_readyState w ∧ w_timers w' = w_timers w ∧
  w_nextTimer w' = w_nextTimer w ∧ w_configs w' = w_configs w ∧
  w_handlers w' = w_handlers w.
Proof.
  revert w. induction A as [|a A IH]; intros w; cbn [foldl]; [done|].
  cbn zeta in IH. specialize (IH (remove_audio out w a)). exact IH.
Qed.

Lemma add_audio_frame (out : nat) (A : list Track) (w : World) :
  let w' := foldl (add_audio out) w A in
  w_readyState w' = w_readyState w ∧ w_timers w' = w_timers w ∧
  w_nextTimer w' = w_nextTimer w ∧ w_configs w' = w_configs w ∧
  w_handlers w' = w_handlers w.
Proof.
  revert w. induction A as [|a A IH]; intros w; cbn [foldl]; [done|].
  cbn zeta in IH. specialize (IH (add_audio out w a)). exact IH.
Qed.

Lemma clone_frame (this : t) (w : World) :
  let w' := cloneInputAudioTracksToOutput this w in
  w_readyState w' = w_readyState w ∧ w_timers w' = w_timers w ∧
  w_nextTimer w' = w_nextTimer w ∧ w_configs w' = w_configs w ∧
  w_handlers w' = w_handlers w.
Proof.
  unfold cloneInputAudioTracksToOutput.
  destruct (inputVideoStream this) as [input|]; [|done].
  destruct (negb (isOutputMediaStreamActive this w)); [done|].
  cbn zeta.
  destruct (add_audio_frame (outputMediaStream this)
              (getAudioTracks (foldl (remove_audio (outputMediaStream this)) w
                                 (getAudioTracks w (outputMediaStream this))) input)
              (foldl (remove_audio (outputMediaStream this)) w
                 (getAudioTracks w (outputMediaStream this))))
    as (-> & -> & -> & -> & ->).
  apply remove_audio_frame.
Qed.

(** What the synchronisation leaves on the output, when it runs. *)
Lemma clone_output_tracks (this : t) (w : World) (input : nat) :
  isOutputMediaStreamActive this w = true →
  inputVideoStream this = Some input →
  coherent (getTracks w (outputMediaStream this) ++ getTracks w input) →
  NoDup (getTracks w input) →
  getTracks (cloneInputAudioTracksToOutput this w) (outputMediaStream this) =
    getVideoTracks w (outputMediaStream this) ++
    (if decide (input = outputMediaStream this) then [] else getAudioTracks w input).
Proof.
  intros Hact Hin Hcoh Hnd. unfold cloneInputAudioTracksToOutput.
  rewrite Hin. unfold isOutputMediaStreamActive in Hact. 
  unfold isOutputMediaStreamActive. rewrite Hact. cbn [negb].
  set (out := outputMediaStream this) in *.
  set (w1 := foldl (remove_audio out) w (getAudioTracks w out)).
  assert (Hout1 : getTracks w1 out = getVideoTracks w out).
  { unfold w1. rewrite getTracks_remove_audio, decide_True by reflexivity.
    apply remove_all_audio. eapply coherent_subseteq; [|exact Hcoh].
    intros x Hx. apply elem_of_app. by left. }
  rewrite getTracks_add_audio, decide_True by reflexivity. rewrite Hout1.
  case_decide as Ealias.
  - subst input. unfold getAudioTracks at 1. rewrite Hout1.
    unfold getVideoTracks. rewrite filter_audio_of_video. cbn [foldl].
    by rewrite app_nil_r.
  - assert (Hin1 : getAudioTracks w1 input = getAudioTracks w input).
    { unfold getAudioTracks, w1. rewrite getTracks_remove_audio.
      rewrite decide_False by exact Ealias. reflexivity. }
    rewrite Hin1. apply foldl_add_to_fresh.
    + apply coherent_NoDup_refs.
      * eapply coherent_subseteq; [|exact Hcoh].
        intros x Hx. apply elem_of_filter_list in Hx as [Hx _].
        apply elem_of_app. by right.
      * apply NoDup_filter_list. exact Hnd.
    + intros a u Ha Hu Href.
      apply elem_of_filter_list in Ha as [Ha Haud].
      apply elem_of_filter_list in Hu as [Hu Hvid].
      apply (coherent_spec _ a u Hcoh) in Href.
      * subst u. rewrite is_audio_not_video, Hvid in Haud. discriminate.
      * apply elem_of_app. by right.
      * apply elem_of_app. by left.
Qed.

End AudioSync.

(** ** The stream handler: output handle and input binding *)

Section StreamHandler.
Import PremiumVideoStreamHandler.

(** C8. Audio synchronisation only logs when the output is not active
    or no input is bound. When both hold (and the two track sets are sets
    of distinct objects) the output afterwards carries exactly the audio
    tracks of the bound input, its video tracks are the ones it had, and
    no audio track that was on the output but is not on the input
    remains. *)
Theorem C8_audio_sync (this : t) (w : World) :
  ((isOutputMediaStreamActive this w = false ∨ inputVideoStream this = None) →
     cloneInputAudioTracksToOutput this w =
       logger LogInfo
         "Not cloning input audio tracks to output, do not have media streams ready" w)
  ∧
  (∀ input,
     isOutputMediaStreamActive this w = true →
     inputVideoStream this = Some input →
     coherent (getTracks w (outputMediaStream this) ++ getTracks w input) →
     NoDup (getTracks w input) →
     let w' := cloneInputAudioTracksToOutput this w in
     let out := outputMediaStream this in
     getAudioTracks w' out = getAudioTracks w' input
     ∧ (input ≠ out → getAudioTracks w' input = getAudioTracks w input)
     ∧ getVideoTracks w' out = getVideoTracks w out
     ∧ (∀ tr, tr ∈ getAudioTracks w out → tr ∉ getAudioTracks w input →
              tr ∉ getTracks w' out)
     ∧ w_readyState w' = w_readyState w).
Proof.
  split.
  - intros [Hoff | Hnone]; unfold cloneInputAudioTracksToOutput.
    + rewrite Hoff. by destruct (inputVideoStream this).
    + by rewrite Hnone.
  - intros input Hact Hin Hcoh Hnd w' out.
    pose proof (clone_output_tracks this w input Hact Hin Hcoh Hnd) as Hout.
    fold w' out in Hout.
    assert (Hin' : input ≠ out → getTracks w' input = getTracks w input).
    { intros Hne. unfold w', cloneInputAudioTracksToOutput.
      rewrite Hin. unfold isOutputMediaStreamActive in *. rewrite Hact. cbn [negb].
      rewrite getTracks_add_audio, decide_False by exact Hne.
      rewrite getTracks_remove_audio, decide_False by exact Hne. reflexivity. }
    assert (Haud : getAudioTracks w' out =
                   if decide (input = out) then [] else getAudioTracks w input).
    { unfold getAudioTracks at 1. rewrite Hout. rewrite List.filter_app.
      unfold getVideoTracks. rewrite filter_audio_of_video. cbn [app].
      case_decide; [reflexivity|]. apply filter_twice. }
    repeat split.
    + destruct (decide (input = out)) as [->|Hne]; [reflexivity|].
      rewrite Haud. unfold getAudioTracks at 2. by rewrite Hin'.
    + intros Hne. unfold getAudioTracks. by rewrite Hin'.
    + unfold getVideoTracks at 1. rewrite Hout, List.filter_app.
      unfold getVideoTracks. rewrite filter_twice.
      case_decide; cbn [List.filter]; [by rewrite app_nil_r|].
      unfold getAudioTracks. rewrite filter_video_of_audio. by rewrite app_nil_r.
    + intros tr Hold Hnew Hstill. rewrite Hout in Hstill.
      apply elem_of_app in Hstill as [Hv | Ha].
      * apply elem_of_filter_list in Hv as [_ Hv].
        apply elem_of_filter_list in Hold as [_ Hold].
        rewrite is_audio_not_video, Hv in Hold. discriminate.
      * case_decide; [by apply not_elem_of_nil in Ha | by apply Hnew].
    + apply clone_frame.
Qed.

Lemma clone_keeps_tracks (this : t) (w : World) :
  getAudioTracks w (outputMediaStream this) = [] →
  getTracks w (outputMediaStream this)
    `prefix_of` getTracks (cloneInputAudioTracksToOutput this w) (outputMediaStream this).
Proof.
  intros Hnone. unfold cloneInputAudioTracksToOutput.
  destruct (inputVideoStream this) as [input|]; [|reflexivity].
  destruct (negb (isOutputMediaStreamActive this w)); [reflexivity|].
  rewrite Hnone. cbn [foldl].
  rewrite getTracks_add_audio, decide_True by reflexivity.
  apply foldl_add_to_prefix.
Qed.

Lemma getActive_when_active (this : t) (w : World) :
  isOutputMediaStreamActive this w = true →
  getActiveOutputMediaStream this w = (this, w, outputMediaStream this).
Proof. intros H. unfold getActiveOutputMediaStream. by rewrite H. Qed.

(** The stream made by [captureStream] stays active through the audio
    synchronisation that follows it. *)
Lemma captured_stream_active (this : t) (w : World) :
  let '(s, w1) := captureStream (canvasOutput this) (framerate this) w in
  active (cloneInputAudioTracksToOutput (set_outputMediaStream s this) w1) s = true.
Proof.
  unfold captureStream.
  set (r := fresh (dom (w_readyState w))).
  set (s := fresh (dom (w_streams w))).
  set (tr := mkTrack r (pretty r) KindVideo _ _).
  set (w1 := upd_streams _ _).
  set (this1 := set_outputMediaStream s this).
  assert (Hs : getTracks w1 s = [tr]).
  { unfold getTracks, w1. cbn. by rewrite lookup_insert_eq. }
  assert (Hpre : [tr] `prefix_of` getTracks (cloneInputAudioTracksToOutput this1 w1) s).
  { rewrite <- Hs. apply (clone_keeps_tracks this1 w1).
    unfold getAudioTracks. cbn [outputMediaStream this1 set_outputMediaStream].
    rewrite Hs. reflexivity. }
  destruct (clone_frame this1 w1) as (Hrs & _).
  unfold active. apply existsb_exists. exists tr. split.
  - apply list_elem_of_In. destruct Hpre as [k ->]. apply list_elem_of_here.
  - unfold is_live. apply bool_decide_eq_true. rewrite Hrs.
    unfold w1. cbn. by rewrite lookup_insert_eq.
Qed.

(** C7. Whatever the state, the handle returned by
    [getActiveOutputMediaStream] is active, and asking again returns the
    same handle and changes nothing: no second capture of the sink is
    made. *)
Theorem C7_getActiveOutputMediaStream_idempotent (this : t) (w : World) :
  let '(this1, w1, out1) := getActiveOutputMediaStream this w in
  isOutputMediaStreamActive this1 w1 = true
  ∧ getActiveOutputMediaStream this1 w1 = (this1, w1, out1).
Proof.
  unfold getActiveOutputMediaStream at 1.
  destruct (isOutputMediaStreamActive this w) eqn:Hact.
  - split; [exact Hact | by apply getActive_when_active].
  - pose proof (captured_stream_active this w) as Hcap.
    destruct (captureStream (canvasOutput this) (framerate this) w) as [s w1].
    assert (Hact1 : isOutputMediaStreamActive (set_outputMediaStream s this)
                      (cloneInputAudioTracksToOutput (set_outputMediaStream s this) w1)
                    = true) by exact Hcap.
    split; [exact Hact1 | by apply getActive_when_active].
Qed.

(** C6. A stream without video tracks is refused: the handler is left
    as it was (bound input, canvases, timeout handles, output handle), the
    store differs by one error line of the logger (track sets, ready
    states and pending timeouts are the same), and the promise is
    fulfilled. *)
Theorem C6_no_video_tracks_ignored (play_ok : bool) (this : t) (w : World) (s : nat) :
  getVideoTracks w s = [] →
  let '(this', w', result) := setInputMediaStream play_ok (Some s) this w in
  this' = this
  ∧ result = Fulfilled
  ∧ w' = logger LogError "No video tracks in input media stream, ignoring" w
  ∧ w_streams w' = w_streams w
  ∧ w_readyState w' = w_readyState w
  ∧ w_timers w' = w_timers w.
Proof.
  intros Hnone. unfold setInputMediaStream. rewrite Hnone. cbn. done.
Qed.

(** C2, as the code has it. Binding a stream that has a video track
    stops nothing: the stream becomes the bound input and the source of the
    video element, [process] is registered for 'loadedmetadata', and every
    pending timeout, both timeout handles and every ready state are what
    they were. *)
Theorem C2_rebinding_stops_nothing (play_ok : bool) (this : t) (w : World) (s : nat) :
  getVideoTracks w s ≠ [] →
  let '(this', w', result) := setInputMediaStream play_ok (Some s) this w in
  result = Fulfilled
  ∧ inputVideoStream this' = Some s
  ∧ srcObject (videoInput this') = Some s
  ∧ loadedmetadata_listener (videoInput this') = true
  ∧ w_timers w' = w_timers w
  ∧ lastTimeOut this' = lastTimeOut this
  ∧ lastTimeout this' = lastTimeout this
  ∧ w_readyState w' = w_readyState w.
Proof.
  intros Hsome. unfold setInputMediaStream, startVideoOnMediaStream.
  cbn [inputVideoStream set_inputVideoStream].
  destruct (getVideoTracks w s) as [|track0 rest] eqn:Hv; [done|].
  cbn [length Nat.eqb].
  match goal with
  | |- context [cloneInputAudioTracksToOutput ?h ?w0] =>
      destruct (clone_frame h w0) as (Hrs & Htm & _)
  end.
  cbn zeta in Hrs, Htm. rewrite Hrs, Htm.
  destruct play_ok; cbn; done.
Qed.

End StreamHandler.

(** ** The stream handler: the tick chain *)

Section TickChain.
Import PremiumVideoStreamHandler.

Lemma stop_tracks_timers (l : list Track) (w : World) :
  w_timers (foldl (λ w tr, track_stop tr w) w l) = w_timers w.
Proof.
  revert w. induction l as [|tr l IH]; intros w; cbn [foldl]; [done|].
  by rewrite IH.
Qed.

Lemma stop_tracks_streams (l : list Track) (w : World) :
  w_streams (foldl (λ w tr, track_stop tr w) w l) = w_streams w.
Proof.
  revert w. induction l as [|tr l IH]; intros w; cbn [foldl]; [done|].
  by rewrite IH.
Qed.

(** [stop] looks for its timeout under [lastTimeOut]; as long as that
    field is empty it cancels nothing. *)
Lemma stop_timers (this : t) (w : World) :
  lastTimeOut this = None → w_timers (stop this w).2 = w_timers w.
Proof.
  intros Hnone. unfold stop, destroyInputMediaAndBuffers.
  cbn [lastTimeOut inputVideoStream set_inputVideoStream set_videoInput].
  rewrite Hnone. cbn [truthy snd].
  rewrite stop_tracks_timers.
  destruct (inputVideoStream this) as [s|]; [apply stop_tracks_timers | reflexivity].
Qed.

Lemma stop_lastTimeOut (this : t) (w : World) :
  lastTimeOut this = None → lastTimeOut (stop this w).1 = None.
Proof.
  intros Hnone. unfold stop, destroyInputMediaAndBuffers.
  cbn [lastTimeOut inputVideoStream set_inputVideoStream set_videoInput].
  rewrite Hnone. exact Hnone.
Qed.

Lemma stop_unbinds (this : t) (w : World) : inputVideoStream (stop this w).1 = None.
Proof.
  unfold stop, destroyInputMediaAndBuffers.
  cbn [lastTimeOut inputVideoStream set_inputVideoStream set_videoInput].
  by destruct (truthy (lastTimeOut this)).
Qed.

(** [process] never writes [lastTimeOut]. *)
Lemma process_lastTimeOut (latency : Q) (this : t) (w : World) :
  lastTimeOut (process latency this w).1.1 = lastTimeOut this.
Proof.
  unfold process. destruct (inputVideoStream this); [|reflexivity].
  destruct (negb (videoWidth (videoInput this) =? 0)); cbn [canvasInput set_canvasInput].
  all: destruct (getImageData _) as [e|img]; [reflexivity|].
  all: destruct (PremiumVideoEffectDriver.apply _ _ _) as [e|out]; [reflexivity|].
  all: destruct (negb _ && negb _); reflexivity.
Qed.

Lemma setInputMediaStream_lastTimeOut play_ok ms (this : t) (w : World) :
  lastTimeOut this = None →
  lastTimeOut (setInputMediaStream play_ok ms this w).1.1 = None.
Proof.
  intros Hnone. unfold setInputMediaStream.
  destruct ms as [s|]; [|by apply stop_lastTimeOut].
  destruct (length (getVideoTracks w s) =? 0); [exact Hnone|].
  unfold startVideoOnMediaStream. cbn [inputVideoStream set_inputVideoStream].
  destruct (getVideoTracks w s); exact Hnone.
Qed.

Lemma getActiveOutputMediaStream_lastTimeOut (this : t) (w : World) :
  lastTimeOut (getActiveOutputMediaStream this w).1.1 = lastTimeOut this.
Proof.
  unfold getActiveOutputMediaStream.
  destruct (isOutputMediaStreamActive this w); reflexivity.
Qed.

(** No reachable state has a handle under [lastTimeOut]. *)
Lemma reachable_lastTimeOut (this : t) (w : World) :
  reachable this w → lastTimeOut this = None.
Proof.
  induction 1 as [driver w | play_ok ms h w _ IH | h w _ IH | h w _ IH
                 | vw vh frame latency h w _ IH | vw vh frame h w _ IH
                 | id latency h w _ IH].
  - unfold constructor. reflexivity.
  - by apply setInputMediaStream_lastTimeOut.
  - by rewrite getActiveOutputMediaStream_lastTimeOut.
  - by apply stop_lastTimeOut.
  - unfold dispatch_loadedmetadata. cbn [videoInput set_videoInput].
    destruct (loadedmetadata_listener _); [|exact IH].
    rewrite process_lastTimeOut. exact IH.
  - exact IH.
  - unfold fire_timer. destruct (existsb _ _); [|exact IH].
    rewrite process_lastTimeOut. exact IH.
Qed.

(** In every reachable state, [stop()] leaves the queue of pending
    timeouts as it found it. *)
Lemma reachable_stop_cancels_nothing (this : t) (w : World) :
  reachable this w → w_timers (stop this w).2 = w_timers w.
Proof. intros H. apply stop_timers. by apply (reachable_lastTimeOut this w). Qed.

(** A tick that runs to its end with an input bound schedules exactly one
    timeout, owned by the handler, and keeps its handle under
    [lastTimeout]. *)
Lemma process_schedules (latency : Q) (this this' : t) (w w' : World) :
  is_Some (inputVideoStream this) →
  process latency this w = (this', w', Fulfilled) →
  ∃ tm, w_timers w' = w_timers w ++ [tm]
        ∧ timer_owner tm = self this
        ∧ lastTimeout this' = Some (timer_id tm).
Proof.
  intros [s Hs]. unfold process. rewrite Hs.
  destruct (negb (videoWidth (videoInput this) =? 0)); cbn [canvasInput set_canvasInput].
  all: destruct (getImageData _) as [e|img]; [discriminate|].
  all: destruct (PremiumVideoEffectDriver.apply _ _ _) as [e|out]; [discriminate|].
  all: destruct (negb _ && negb _); intros [= <- <-]; eexists; cbn; eauto.
Qed.

(** In every reachable state with an input bound: the timeout a tick has
    just scheduled is still pending after [stop()]. *)
Lemma tick_then_stop_keeps_timer (latency : Q) (this this' : t) (w w' : World) :
  reachable this w →
  is_Some (inputVideoStream this) →
  process latency this w = (this', w', Fulfilled) →
  ∃ tm, lastTimeout this' = Some (timer_id tm)
        ∧ timer_owner tm = self this'
        ∧ tm ∈ w_timers w'
        ∧ tm ∈ w_timers (stop this' w').2.
Proof.
  intros Hreach Hbound Hproc.
  destruct (process_schedules latency this this' w w' Hbound Hproc) as (tm & Htm & Hown & Hlast).
  assert (Hnone : lastTimeOut this' = None).
  { pose proof (process_lastTimeOut latency this w) as H. rewrite Hproc in H. cbn in H.
    rewrite H. by apply (reachable_lastTimeOut this w). }
  assert (Hself : self this' = self this).
  { revert Hproc. destruct Hbound as [s Hs]. unfold process. rewrite Hs.
    destruct (negb (videoWidth (videoInput this) =? 0)); cbn [canvasInput set_canvasInput].
    all: destruct (getImageData _) as [e|img]; [discriminate|].
    all: destruct (PremiumVideoEffectDriver.apply _ _ _) as [e|out]; [discriminate|].
    all: destruct (negb _ && negb _); intros [= <- _]; reflexivity. }
  exists tm. rewrite stop_timers by exact Hnone. rewrite Htm, Hself.
  repeat split; try assumption; apply elem_of_app; right; apply list_elem_of_here.
Qed.

(** A tick that finds no bound input does nothing at all. *)
Lemma process_unbound (latency : Q) (this : t) (w : World) :
  inputVideoStream this = None → process latency this w = (this, w, Fulfilled).
Proof. intros H. unfold process. by rewrite H. Qed.

(** The size of the sink after a tick that ran to its end. *)
Lemma process_sink_size (latency : Q) (this this' : t) (w w' : World) :
  is_Some (inputVideoStream this) →
  process latency this w = (this', w', Fulfilled) →
  (cv_width (canvasOutput this'), cv_height (canvasOutput this')) =
    if negb (cv_width (canvasOutput this) =? videoWidth (videoInput this))
       && negb (cv_height (canvasOutput this) =? videoHeight (videoInput this))
    then (videoWidth (videoInput this), videoHeight (videoInput this))
    else (cv_width (canvasOutput this), cv_height (canvasOutput this)).
Proof.
  intros [s Hs]. unfold process. rewrite Hs.
  destruct (negb (videoWidth (videoInput this) =? 0)); cbn [canvasInput set_canvasInput].
  all: destruct (getImageData _) as [e|img]; [discriminate|].
  all: destruct (PremiumVideoEffectDriver.apply _ _ _) as [e|out]; [discriminate|].
  all: cbn [canvasOutput set_canvasInput].
  all: destruct (negb _ && negb _); intros [= <- _]; reflexivity.
Qed.

End TickChain.

(** ** The tick chain on the example page *)

Section TickChainExamples.
Import PremiumVideoStreamHandler Scenario.

(** C1. The camera is bound and one tick has run, so timeout 1 is
    pending (its handle is under [lastTimeout], while [lastTimeOut] is
    empty). After [stop()] timeout 1 is still pending. When the screen share
    is bound next and has shown its first frame, timeout 1 expires, its tick
    paints the following frame on the sink and schedules a successor, so two
    chains are pending. *)
Theorem C1_stop_leaves_tick_pending :
  pending ticking.1.2 = [1]
  ∧ lastTimeout ticking.1.1 = Some 1
  ∧ lastTimeOut ticking.1.1 = None
  ∧ pending stopped.2 = [1]
  ∧ pending restarted_ticking.1.2 = [1; 2]
  ∧ cv_bitmap (canvasOutput restarted_ticking.1.1) = frameB
  ∧ cv_bitmap (canvasOutput leftover_fired.1.1) = frameC
  ∧ pending leftover_fired.1.2 = [2; 3].
Proof. vm_compute. repeat split. Qed.

(** When nothing is bound again, the tick that [stop()] left pending
    still expires, but finds no input and leaves the sink alone. *)
Lemma leftover_tick_idle :
  pending stopped_fired.1.2 = []
  ∧ canvasOutput stopped_fired.1.1 = canvasOutput stopped.1.
Proof. vm_compute. split; reflexivity. Qed.

(** C2 fails on the page: the screen share has a video track and is bound
    while timeout 1 of the camera's chain is pending; the timeout is pending
    afterwards, and once the metadata of the screen share has arrived two
    timeouts of the same handler are pending. *)
Lemma C2_old_chain_survives_rebinding :
  getVideoTracks ticking.1.2 screen ≠ []
  ∧ pending ticking.1.2 = [1]
  ∧ pending rebound.1.2 = [1]
  ∧ pending rebound_ticking.1.2 = [1; 2]
  ∧ timer_owner <$> w_timers rebound_ticking.1.2
    = [self rebound_ticking.1.1; self rebound_ticking.1.1].
Proof. vm_compute. repeat split. discriminate. Qed.

(** The hypothesis of C2's statement holds on the page, where the screen
    share is bound over the camera's running chain. *)
Lemma C2_rebinding_stops_nothing_witness :
  getVideoTracks ticking.1.2 screen ≠ []
  ∧ w_timers rebound.1.2 = w_timers ticking.1.2.
Proof.
  assert (H : getVideoTracks ticking.1.2 screen ≠ []) by (vm_compute; discriminate).
  split; [exact H|].
  pose proof (C2_rebinding_stops_nothing true ticking.1.1 ticking.1.2 screen H) as W.
  unfold rebound.
  destruct (setInputMediaStream true (Some screen) ticking.1.1 ticking.1.2) as [[h' w'] r].
  exact (proj1 (proj2 (proj2 (proj2 (proj2 W))))).
Defined.

(** C3. The sink is 2 x 1 (the camera's settings) and the video turns
    out to be 2 x 2: the widths agree, the heights differ. The tick leaves
    the sink at 2 x 1 and paints the top row of the transformed frame. *)
Theorem C3_sink_keeps_size_when_only_height_differs :
  tall.2 = Fulfilled
  ∧ (cv_width (canvasOutput bound.1.1), cv_height (canvasOutput bound.1.1)) = (2, 1)
  ∧ (videoWidth (videoInput tall.1.1), videoHeight (videoInput tall.1.1)) = (2, 2)
  ∧ (cv_width (canvasOutput tall.1.1), cv_height (canvasOutput tall.1.1)) = (2, 1)
  ∧ cv_bitmap (canvasOutput tall.1.1) = take 8 frameTall.
Proof. vm_compute. repeat split. Qed.

(** The microphone stream has no video track; passing it to the ticking
    handler leaves the handler as it was. *)
Lemma C6_no_video_tracks_ignored_witness :
  getVideoTracks ticking.1.2 mic = []
  ∧ (setInputMediaStream true (Some mic) ticking.1.1 ticking.1.2).1.1 = ticking.1.1.
Proof.
  assert (H : getVideoTracks ticking.1.2 mic = []) by (vm_compute; reflexivity).
  split; [exact H|].
  pose proof (C6_no_video_tracks_ignored true ticking.1.1 ticking.1.2 mic H) as W.
  destruct (setInputMediaStream true (Some mic) ticking.1.1 ticking.1.2) as [[h' w'] r].
  exact (proj1 W).
Defined.

(** The output is active and still carries the camera's audio track while
    the screen share, which has none, is the bound input. *)
Lemma C8_audio_sync_witness :
  isOutputMediaStreamActive stale_audio.1 stale_audio.2 = true
  ∧ inputVideoStream stale_audio.1 = Some screen
  ∧ camera_audio ∈ getAudioTracks stale_audio.2 (outputMediaStream stale_audio.1)
  ∧ getAudioTracks (cloneInputAudioTracksToOutput stale_audio.1 stale_audio.2)
      (outputMediaStream stale_audio.1)
    = getAudioTracks (cloneInputAudioTracksToOutput stale_audio.1 stale_audio.2) screen.
Proof.
  assert (Ha : isOutputMediaStreamActive stale_audio.1 stale_audio.2 = true)
    by (vm_compute; reflexivity).
  assert (Hi : inputVideoStream stale_audio.1 = Some screen) by (vm_compute; reflexivity).
  assert (Hc : coherent (getTracks stale_audio.2 (outputMediaStream stale_audio.1)
                         ++ getTracks stale_audio.2 screen))
    by (refine (bool_decide_unpack _ _); vm_compute; exact I).
  assert (Hn : NoDup (getTracks stale_audio.2 screen))
    by (refine (bool_decide_unpack _ _); vm_compute; exact I).
  split; [exact Ha|]. split; [exact Hi|]. split.
  - refine (bool_decide_unpack _ _). vm_compute. exact I.
  - exact (proj1 (proj2 (C8_audio_sync stale_audio.1 stale_audio.2) screen Ha Hi Hc Hn)).
Defined.

End TickChainExamples.

(** ** The transform device *)

Section TransformDevice.
Import PremiumVideoTransformDevice.

Lemma setInputMediaStream_fulfilled play_ok ms (h : PremiumVideoStreamHandler.t) (w : World) :
  (PremiumVideoStreamHandler.setInputMediaStream play_ok ms h w).2 = Fulfilled.
Proof.
  unfold PremiumVideoStreamHandler.setInputMediaStream.
  destruct ms as [s|]; [|reflexivity].
  destruct (getVideoTracks w s) as [|track0 rest] eqn:Hv; [reflexivity|].
  cbn [length Nat.eqb]. unfold PremiumVideoStreamHandler.startVideoOnMediaStream.
  cbn [PremiumVideoStreamHandler.inputVideoStream
       PremiumVideoStreamHandler.set_inputVideoStream].
  rewrite Hv. reflexivity.
Qed.

Lemma clone_other_tracks (h : PremiumVideoStreamHandler.t) (w : World) (s : nat) :
  s ≠ PremiumVideoStreamHandler.outputMediaStream h →
  getTracks (PremiumVideoStreamHandler.cloneInputAudioTracksToOutput h w) s = getTracks w s.
Proof.
  intros Hne. unfold PremiumVideoStreamHandler.cloneInputAudioTracksToOutput.
  destruct (PremiumVideoStreamHandler.inputVideoStream h) as [input|]; [|reflexivity].
  destruct (negb _); [reflexivity|].
  rewrite getTracks_add_audio, decide_False by exact Hne.
  rewrite getTracks_remove_audio, decide_False by exact Hne. reflexivity.
Qed.

(** Asking for the output does not touch the track set of a stream the
    store already holds, unless it is the output itself. *)
Lemma getActive_other_tracks (h : PremiumVideoStreamHandler.t) (w : World) (s : nat) :
  is_Some (w_streams w !! s) →
  PremiumVideoStreamHandler.isOutputMediaStreamActive h w = false →
  getTracks (PremiumVideoStreamHandler.getActiveOutputMediaStream h w).1.2 s = getTracks w s.
Proof.
  intros Hs Hoff. unfold PremiumVideoStreamHandler.getActiveOutputMediaStream.
  rewrite Hoff. unfold captureStream. cbn [fst snd].
  assert (Hne : s ≠ fresh (dom (w_streams w))).
  { intros ->. apply elem_of_dom in Hs. by apply is_fresh in Hs. }
  rewrite clone_other_tracks by exact Hne.
  unfold getTracks. cbn. by rewrite lookup_insert_ne.
Qed.

Lemma getActive_input (h : PremiumVideoStreamHandler.t) (w : World) :
  PremiumVideoStreamHandler.inputVideoStream
    (PremiumVideoStreamHandler.getActiveOutputMediaStream h w).1.1
  = PremiumVideoStreamHandler.inputVideoStream h.
Proof.
  unfold PremiumVideoStreamHandler.getActiveOutputMediaStream.
  destruct (PremiumVideoStreamHandler.isOutputMediaStreamActive h w); reflexivity.
Qed.

(** C9. [chooseNewInnerDevice d2] builds a device on [d2] with a handler
    and an output handle of its own and no recorded input; it holds the
    driver of the original, hence the same configuration object, which the
    call does not modify: each flag reads on the new device as it reads on
    the original. *)
Theorem C9_chooseNewInnerDevice_shares_driver (this : t) (d2 : Device) (w : World) :
  let '(new, w') := chooseNewInnerDevice this d2 w in
  getInnerDevice new = d2
  ∧ videoEffectDriver new = videoEffectDriver this
  ∧ PremiumVideoEffectDriver.getEffectConfig (videoEffectDriver new)
    = PremiumVideoEffectDriver.getEffectConfig (videoEffectDriver this)
  ∧ PremiumVideoEffectDriver.read_config (videoEffectDriver new) w'
    = PremiumVideoEffectDriver.read_config (videoEffectDriver this) w
  ∧ (∀ enabled,
       redShiftEnabled
         (PremiumVideoEffectDriver.read_config (videoEffectDriver new)
            (PremiumVideoEffectDriver.setRedShiftState (videoEffectDriver this) enabled w'))
       = redShiftEnabled
           (PremiumVideoEffectDriver.read_config (videoEffectDriver this)
              (PremiumVideoEffectDriver.setRedShiftState (videoEffectDriver this) enabled w)))
  ∧ inputMediaStream new = None
  ∧ (PremiumVideoStreamHandler.self (premiumVideoStreamHandler new) ∉ w_handlers w)
  ∧ (outputMediaStream new ∉ dom (w_streams w)).
Proof.
  unfold chooseNewInnerDevice, constructor, PremiumVideoStreamHandler.constructor,
    new_MediaStream.
  cbn -[fresh]. repeat split.
  - apply is_fresh.
  - apply is_fresh.
Qed.

(** C10. [transformStream] records whatever it was given. When the stream
    has no video track the handler keeps the input it had, and the device
    records the refused stream all the same: [stop()] and
    [onOutputStreamDisconnect()] then go through the video tracks of the
    refused stream, of which there are none, and stop no track. *)
Theorem C10_transformStream_records_refused_stream (play_ok : bool) (this : t) (w : World) :
  (∀ ms,
     let '(this', w', result) := transformStream play_ok ms this w in
     inputMediaStream this' = ms ∧ ∃ out, result = inr out)
  ∧
  (∀ s,
     getVideoTracks w s = [] →
     is_Some (w_streams w !! s) →
     let '(this', w', result) := transformStream play_ok (Some s) this w in
     inputMediaStream this' = Some s
     ∧ PremiumVideoStreamHandler.inputVideoStream (premiumVideoStreamHandler this')
       = PremiumVideoStreamHandler.inputVideoStream (premiumVideoStreamHandler this)
     ∧ getVideoTracks w' s = []
     ∧ stop this' w' = (mk (device this') (videoEffectDriver this') None
                           (premiumVideoStreamHandler this'), w')
     ∧ onOutputStreamDisconnect this' w'
       = logger LogInfo "DefaultVideoTransformDevice: detach stopping input media stream" w').
Proof.
  split.
  - intros ms. unfold transformStream.
    pose proof (setInputMediaStream_fulfilled play_ok ms (premiumVideoStreamHandler this) w)
      as Hf.
    destruct (PremiumVideoStreamHandler.setInputMediaStream _ _ _ _) as [[h1 w1] r].
    cbn in Hf. subst r.
    destruct (PremiumVideoStreamHandler.getActiveOutputMediaStream h1 w1) as [[h2 w2] out].
    cbn. eauto.
  - intros s Hnone Hs. unfold transformStream.
    unfold PremiumVideoStreamHandler.setInputMediaStream. rewrite Hnone. cbn [length Nat.eqb].
    set (h := premiumVideoStreamHandler this).
    set (w1 := logger LogError _ w).
    pose proof (getActive_input h w1) as Hinput.
    assert (Hv : getVideoTracks
                   (PremiumVideoStreamHandler.getActiveOutputMediaStream h w1).1.2 s = []).
    { destruct (PremiumVideoStreamHandler.isOutputMediaStreamActive h w1) eqn:Hact.
      - rewrite getActive_when_active by exact Hact. exact Hnone.
      - unfold getVideoTracks.
        rewrite getActive_other_tracks; [exact Hnone | exact Hs | exact Hact]. }
    destruct (PremiumVideoStreamHandler.getActiveOutputMediaStream h w1) as [[h2 w2] out].
    cbn [fst snd] in Hinput, Hv.
    cbn [inputMediaStream premiumVideoStreamHandler device videoEffectDriver].
    repeat split.
    + exact Hinput.
    + exact Hv.
    + unfold stop, stop_video_tracks. cbn [inputMediaStream]. rewrite Hv. reflexivity.
    + unfold onOutputStreamDisconnect, stop_video_tracks. cbn [inputMediaStream device].
      destruct (negb _); [|reflexivity].
      change (getVideoTracks (logger LogInfo
                "DefaultVideoTransformDevice: detach stopping input media stream" w2) s)
        with (getVideoTracks w2 s).
      rewrite Hv. reflexivity.
Qed.

End TransformDevice.

(** ** The driver and the device on the example page *)

Section DeviceExamples.
Import Scenario.

Lemma imageA_wf : wf_ImageData imageA.
Proof. unfold wf_ImageData. cbn. lia. Defined.

(** Red shift on the camera's 2 x 1 frame: byte 4 becomes 255, byte 5
    passes through. *)
Lemma C4_apply_pointwise_witness :
  wf_ImageData imageA
  ∧ ∃ out, PremiumVideoEffectDriver.apply driver red_page imageA = inr out
           ∧ data out !! 4 = Some xff
           ∧ data out !! 5 = Some x50.
Proof.
  split; [exact imageA_wf|].
  destruct (C4_apply_pointwise driver red_page imageA imageA_wf)
    as (out & Happ & _ & _ & _ & Hidx & _).
  exists out. split; [exact Happ|].
  split; [exact (Hidx 4 x40 eq_refl) | exact (Hidx 5 x50 eq_refl)].
Defined.

(** Both flags are off on the page: the camera's frame comes back as it
    went in. *)
Lemma C5_apply_identity_witness :
  wf_ImageData imageA
  ∧ blueShiftEnabled (PremiumVideoEffectDriver.read_config driver page) = false
  ∧ redShiftEnabled (PremiumVideoEffectDriver.read_config driver page) = false
  ∧ PremiumVideoEffectDriver.apply driver page imageA = inr imageA.
Proof.
  assert (Hb : blueShiftEnabled (PremiumVideoEffectDriver.read_config driver page) = false)
    by (vm_compute; reflexivity).
  assert (Hr : redShiftEnabled (PremiumVideoEffectDriver.read_config driver page) = false)
    by (vm_compute; reflexivity).
  split; [exact imageA_wf|]. split; [exact Hb|]. split; [exact Hr|].
  exact (C5_apply_identity driver page imageA imageA_wf Hb Hr).
Defined.

(** The device that runs on the camera is handed the microphone stream. *)
Lemma C10_transformStream_records_refused_stream_witness :
  getVideoTracks device_active.1.2 mic = []
  ∧ is_Some (w_streams device_active.1.2 !! mic)
  ∧ PremiumVideoTransformDevice.inputMediaStream device_refused.1.1 = Some mic
  ∧ (PremiumVideoTransformDevice.stop device_refused.1.1 device_refused.1.2).2
    = device_refused.1.2.
Proof.
  assert (Hv : getVideoTracks device_active.1.2 mic = []) by (vm_compute; reflexivity).
  assert (Hs : is_Some (w_streams device_active.1.2 !! mic))
    by (exists [mic_audio]; vm_compute; reflexivity).
  split; [exact Hv|]. split; [exact Hs|].
  pose proof (proj2 (C10_transformStream_records_refused_stream true
                       device_active.1.1 device_active.1.2) mic Hv Hs) as W.
  unfold device_refused.
  destruct (PremiumVideoTransformDevice.transformStream true (Some mic)
              device_active.1.1 device_active.1.2) as [[d' w'] r].
  destruct W as (Hrec & _ & _ & Hstop & _).
  cbn [fst snd]. split; [exact Hrec|]. rewrite Hstop. reflexivity.
Defined.

(** On the page: the handler of the device is still bound to the camera,
    whose video track is live before and after the device's [stop()]. *)
Lemma refused_stream_leaves_camera_running :
  PremiumVideoStreamHandler.inputVideoStream
    (PremiumVideoTransformDevice.premiumVideoStreamHandler device_refused.1.1) = Some camera
  ∧ is_live device_refused.1.2 camera_video = true
  ∧ is_live (PremiumVideoTransformDevice.stop device_refused.1.1 device_refused.1.2).2
      camera_video = true.
Proof. vm_compute. repeat split. Qed.

End DeviceExamples.

(** * Further properties of the code *)

(** ** The effect driver: acceptance, idempotence, setters *)

Section EffectDriverMore.
Import PremiumVideoEffectDriver.

Lemma new_ImageData_inv (d : list byte) (sw sh : nat) (img : ImageData) :
  new_ImageData d sw sh = inr img →
  img = mkImageData d sw sh ∧ 0 < sw ∧ 0 < sh ∧ length d = sw * sh * 4.
Proof.
  unfold new_ImageData.
  destruct (Nat.eqb_spec (length d) 0) as [|Hlen]; [discriminate|].
  destruct (Nat.eqb_spec (length d mod 4) 0) as [H4|]; [|discriminate].
  destruct (Nat.eqb_spec sw 0) as [|Hsw]; [discriminate|].
  destruct (Nat.eqb_spec ((length d / 4) mod sw) 0) as [Hrow|]; [|discriminate].
  destruct (Nat.eqb_spec (length d / 4 / sw) sh) as [Hsh|]; [|discriminate].
  cbn. intros [= <-].
  apply Nat.Div0.div_exact in H4. apply Nat.Div0.div_exact in Hrow.
  assert (Hd : length d = sw * sh * 4) by (rewrite <- Hsh; lia).
  repeat split; lia.
Qed.

Lemma apply_wf (this : t) (w : World) (img : ImageData) :
  wf_ImageData img →
  apply this w img =
    inr (mkImageData (Uint8ClampedArray_map (transformData (read_config this w)) (data img))
           (width img) (height img)).
Proof.
  intros (Hw & Hh & Hlen). unfold apply. apply new_ImageData_ok; [exact Hw | exact Hh |].
  unfold Uint8ClampedArray_map. by rewrite length_imap.
Qed.

(** X1. [apply] fulfils its promise exactly on image data of positive size
    whose buffer has four bytes per pixel; on anything else the constructor
    of the result throws. *)
Theorem apply_fulfils_iff_wf (this : t) (w : World) (img : ImageData) :
  (∃ out, apply this w img = inr out) ↔ wf_ImageData img.
Proof.
  split.
  - intros [out Hout]. unfold apply in Hout.
    apply new_ImageData_inv in Hout as (_ & Hw & Hh & Hlen).
    unfold Uint8ClampedArray_map in Hlen. rewrite length_imap in Hlen. done.
  - intros Hwf. eexists. by apply apply_wf.
Qed.

Lemma transform_twice (cfg : EffectConfig) (l : list byte) :
  Uint8ClampedArray_map (transformData cfg) (Uint8ClampedArray_map (transformData cfg) l)
  = Uint8ClampedArray_map (transformData cfg) l.
Proof.
  apply list_eq. intros i. unfold Uint8ClampedArray_map. rewrite !list_lookup_imap.
  destruct (l !! i) as [b|]; [|reflexivity]. cbn. f_equal.
  rewrite !transformData_stored.
  destruct (redShiftEnabled cfg && (i mod 4 =? 0)); [reflexivity|].
  destruct (blueShiftEnabled cfg && (i mod 4 =? 2)); reflexivity.
Qed.

(** X2. Applying the effects to a frame that already went through them (with
    the configuration unchanged) gives that frame back. *)
Theorem apply_idempotent (this : t) (w : World) (img out : ImageData) :
  apply this w img = inr out → apply this w out = inr out.
Proof.
  intros Hout.
  assert (Hwf : wf_ImageData img) by (apply (apply_fulfils_iff_wf this w); eauto).
  rewrite apply_wf in Hout by exact Hwf. injection Hout as <-.
  rewrite apply_wf.
  - cbn [data width height]. by rewrite transform_twice.
  - destruct Hwf as (Hw & Hh & Hlen). repeat split; cbn [data width height]; try done.
    unfold Uint8ClampedArray_map. by rewrite length_imap.
Qed.

(** X3. Whatever the flags, the green and alpha bytes of every pixel (indices
    1 and 3 modulo 4) pass through [apply] unchanged. *)
Theorem apply_keeps_green_and_alpha (this : t) (w : World) (img out : ImageData)
    (idx : nat) (b : byte) :
  apply this w img = inr out →
  data img !! idx = Some b →
  idx mod 4 = 1 ∨ idx mod 4 = 3 →
  data out !! idx = Some b.
Proof.
  intros Hout Hb Hch.
  assert (Hwf : wf_ImageData img) by (apply (apply_fulfils_iff_wf this w); eauto).
  rewrite apply_wf in Hout by exact Hwf. injection Hout as <-. cbn [data].
  unfold Uint8ClampedArray_map. rewrite list_lookup_imap, Hb. cbn. f_equal.
  rewrite transformData_stored.
  destruct Hch as [-> | ->]; cbn; rewrite !andb_false_r; reflexivity.
Qed.

Lemma read_config_set_red (this other : t) (enabled : bool) (w : World) (cfg : EffectConfig) :
  w_configs w !! config this = Some cfg →
  read_config other (setRedShiftState this enabled w) =
    if decide (config other = config this)
    then mkEffectConfig (blueShiftEnabled cfg) enabled
    else read_config other w.
Proof.
  intros Hcfg. unfold read_config, setRedShiftState. cbn [upd_configs w_configs].
  rewrite !lookup_total_alt. rewrite lookup_alter.
  destruct (decide (config this = config other)) as [E|E].
  - rewrite decide_True by done. rewrite Hcfg. reflexivity.
  - rewrite decide_False by congruence. reflexivity.
Qed.

Lemma read_config_set_blue (this other : t) (enabled : bool) (w : World) (cfg : EffectConfig) :
  w_configs w !! config this = Some cfg →
  read_config other (setBlueShiftState this enabled w) =
    if decide (config other = config this)
    then mkEffectConfig enabled (redShiftEnabled cfg)
    else read_config other w.
Proof.
  intros Hcfg. unfold read_config, setBlueShiftState. cbn [upd_configs w_configs].
  rewrite !lookup_total_alt. rewrite lookup_alter.
  destruct (decide (config this = config other)) as [E|E].
  - rewrite decide_True by done. rewrite Hcfg. reflexivity.
  - rewrite decide_False by congruence. reflexivity.
Qed.

(** X4. A setter writes its flag into the configuration object and leaves the
    other flag alone; every driver holding the same object reads the new
    value, and no other configuration object changes. *)
Theorem setters_write_one_flag (this other : t) (enabled : bool) (w : World)
    (cfg : EffectConfig) :
  w_configs w !! config this = Some cfg →
  read_config this (setRedShiftState this enabled w)
    = mkEffectConfig (blueShiftEnabled cfg) enabled
  ∧ read_config this (setBlueShiftState this enabled w)
    = mkEffectConfig enabled (redShiftEnabled cfg)
  ∧ (getEffectConfig other = getEffectConfig this →
       read_config other (setRedShiftState this enabled w)
         = read_config this (setRedShiftState this enabled w)
       ∧ read_config other (setBlueShiftState this enabled w)
         = read_config this (setBlueShiftState this enabled w))
  ∧ (getEffectConfig other ≠ getEffectConfig this →
       read_config other (setRedShiftState this enabled w) = read_config other w
       ∧ read_config other (setBlueShiftState this enabled w) = read_config other w).
Proof.
  intros Hcfg. unfold getEffectConfig.
  pose proof (read_config_set_red this this enabled w cfg Hcfg) as Hrr.
  pose proof (read_config_set_blue this this enabled w cfg Hcfg) as Hbb.
  pose proof (read_config_set_red this other enabled w cfg Hcfg) as Hro.
  pose proof (read_config_set_blue this other enabled w cfg Hcfg) as Hbo.
  rewrite decide_True in Hrr, Hbb by reflexivity.
  split; [exact Hrr|]. split; [exact Hbb|]. split; intros E.
  - rewrite decide_True in Hro, Hbo by exact E. by rewrite Hrr, Hbb, Hro, Hbo.
  - rewrite decide_False in Hro, Hbo by exact E. by rewrite Hro, Hbo.
Qed.

End EffectDriverMore.

Section EffectDriverCompose.
Import PremiumVideoEffectDriver.

(** X6. Once red (blue) shift is switched on through one driver, any driver
    that holds the same configuration object turns every red (blue) byte of
    a frame into 255, whatever the byte was. *)
Theorem setter_then_apply (this other : t) (w : World) (cfg : EffectConfig)
    (img : ImageData) :
  w_configs w !! config this = Some cfg →
  getEffectConfig other = getEffectConfig this →
  wf_ImageData img →
  (∃ out, apply other (setRedShiftState this true w) img = inr out
          ∧ ∀ idx, idx < length (data img) → idx mod 4 = 0 → data out !! idx = Some xff)
  ∧ (∃ out, apply other (setBlueShiftState this true w) img = inr out
            ∧ ∀ idx, idx < length (data img) → idx mod 4 = 2 → data out !! idx = Some xff).
Proof.
  intros Hcfg Hshare Hwf. unfold getEffectConfig in Hshare.
  split; eexists; (split; [by apply apply_wf|]); intros idx Hidx Hmod; cbn [data].
  all: destruct (lookup_lt_is_Some_2 (data img) idx Hidx) as [b Hb].
  all: unfold Uint8ClampedArray_map; rewrite list_lookup_imap, Hb; cbn; f_equal.
  all: rewrite transformData_stored, Hmod.
  - rewrite (read_config_set_red this other true w cfg Hcfg), decide_True by exact Hshare.
    reflexivity.
  - rewrite (read_config_set_blue this other true w cfg Hcfg), decide_True by exact Hshare.
    cbn. by destruct (redShiftEnabled cfg).
Qed.

(** X5. Setting a flag twice keeps the last value, and the two setters
    commute. *)
Theorem setters_compose (this : t) (b1 b2 : bool) (w : World) :
  setRedShiftState this b2 (setRedShiftState this b1 w) = setRedShiftState this b2 w
  ∧ setBlueShiftState this b2 (setBlueShiftState this b1 w) = setBlueShiftState this b2 w
  ∧ setRedShiftState this b1 (setBlueShiftState this b2 w)
    = setBlueShiftState this b2 (setRedShiftState this b1 w).
Proof.
  unfold setRedShiftState, setBlueShiftState, upd_configs. cbn.
  repeat split; f_equal; rewrite !alter_alter_eq; apply alter_ext; by intros [].
Qed.

End EffectDriverCompose.

(** ** The stream handler: teardown *)

Section Teardown.
Import PremiumVideoStreamHandler.

Lemma stop_tracks_readyState (l : list Track) (w : World) (r : nat) :
  w_readyState (foldl (λ w tr, track_stop tr w) w l) !! r =
    if decide (r ∈ track_ref <$> l) then Some Ended else w_readyState w !! r.
Proof.
  revert w. induction l as [|tr l IH]; intros w; cbn [foldl].
  - rewrite decide_False; [reflexivity | apply not_elem_of_nil].
  - rewrite IH, fmap_cons. unfold track_stop. cbn [upd_readyState w_readyState].
    destruct (decide (r ∈ track_ref <$> l)) as [Hin|Hnin].
    + rewrite decide_True; [reflexivity | by apply list_elem_of_further].
    + destruct (decide (r = track_ref tr)) as [->|Hne].
      * rewrite lookup_insert_eq, decide_True; [reflexivity | apply list_elem_of_here].
      * rewrite lookup_insert_ne by congruence. rewrite decide_False; [reflexivity|].
        rewrite elem_of_cons. tauto.
Qed.

Lemma stop_tracks_log (l : list Track) (w : World) :
  w_log (foldl (λ w tr, track_stop tr w) w l) = w_log w.
Proof.
  revert w. induction l as [|tr l IH]; intros w; cbn [foldl]; [done|]. by rewrite IH.
Qed.

Lemma stop_tracks_ended (l : list Track) (w : World) :
  (∀ tr, tr ∈ l → w_readyState w !! track_ref tr = Some Ended) →
  foldl (λ w tr, track_stop tr w) w l = w.
Proof.
  revert w. induction l as [|tr l IH]; intros w Hall; cbn [foldl]; [done|].
  assert (track_stop tr w = w) as ->.
  { unfold track_stop, upd_readyState. rewrite insert_id by (apply Hall, list_elem_of_here).
    by destruct w. }
  apply IH. intros u Hu. apply Hall. by apply list_elem_of_further.
Qed.

Lemma stop_tracks_not_live (l : list Track) (w : World) (tr : Track) :
  tr ∈ l → is_live (foldl (λ w tr, track_stop tr w) w l) tr = false.
Proof.
  intros Hin. unfold is_live. apply bool_decide_eq_false.
  rewrite stop_tracks_readyState, decide_True; [discriminate|].
  apply list_elem_of_fmap. eauto.
Qed.

Lemma stop_tracks_stay_dead (l : list Track) (w : World) (tr : Track) :
  is_live w tr = false → is_live (foldl (λ w tr, track_stop tr w) w l) tr = false.
Proof.
  unfold is_live. rewrite !bool_decide_eq_false, stop_tracks_readyState.
  intros Hdead. case_decide; [discriminate | exact Hdead].
Qed.

Lemma stop_tracks_getTracks (l : list Track) (w : World) (s : nat) :
  getTracks (foldl (λ w tr, track_stop tr w) w l) s = getTracks w s.
Proof. unfold getTracks. by rewrite stop_tracks_streams. Qed.

Lemma stop_world (this : t) (w : World) :
  (stop this w).2 =
    if truthy (lastTimeOut this)
    then clearTimeout (default 0 (lastTimeOut this)) (stopped_world this w)
    else stopped_world this w.
Proof.
  unfold stop, destroyInputMediaAndBuffers, stopped_world.
  cbn [lastTimeOut inputVideoStream outputMediaStream set_inputVideoStream set_videoInput].
  assert (Hout : ∀ w0, getTracks
            (match inputVideoStream this with
             | Some s => foldl (λ w tr, track_stop tr w) w0 (getTracks w0 s)
             | None => w0 end) (outputMediaStream this)
          = getTracks w0 (outputMediaStream this)).
  { intros w0. destruct (inputVideoStream this); [apply stop_tracks_getTracks | reflexivity]. }
  rewrite Hout. by destruct (truthy (lastTimeOut this)).
Qed.

End Teardown.

Section TeardownProperties.
Import PremiumVideoStreamHandler.

Lemma stop_handler (this : t) (w : World) :
  (stop this w).1 =
    let this2 :=
      set_inputVideoStream None
        (set_videoInput (set_srcObject None (set_listener false (videoInput this))) this) in
    if truthy (lastTimeOut this) then set_lastTimeOut None this2 else this2.
Proof.
  unfold stop, destroyInputMediaAndBuffers.
  cbn [lastTimeOut inputVideoStream set_inputVideoStream set_videoInput].
  by destruct (truthy (lastTimeOut this)).
Qed.

Lemma stop_readyState (this : t) (w : World) :
  w_readyState (stop this w).2 = w_readyState (stopped_world this w).
Proof. rewrite stop_world. by destruct (truthy (lastTimeOut this)). Qed.

Lemma stop_streams (this : t) (w : World) : w_streams (stop this w).2 = w_streams w.
Proof.
  rewrite stop_world.
  assert (w_streams (stopped_world this w) = w_streams w) as H.
  { unfold stopped_world. rewrite stop_tracks_streams.
    destruct (inputVideoStream this); [apply stop_tracks_streams | reflexivity]. }
  by destruct (truthy (lastTimeOut this)).
Qed.

Lemma is_live_readyState (w w' : World) (tr : Track) :
  w_readyState w' = w_readyState w → is_live w' tr = is_live w tr.
Proof. unfold is_live. by intros ->. Qed.

(** X7. [stop()] unbinds the input, detaches [process] from the video element
    and ends every track of the bound input and of the output handle. The
    output handle stays the same object with the same tracks, and is no
    longer active. No track comes back to life and nothing is logged. *)
Theorem stop_tears_down (this : t) (w : World) :
  let '(this', w') := stop this w in
  inputVideoStream this' = None
  ∧ srcObject (videoInput this') = None
  ∧ loadedmetadata_listener (videoInput this') = false
  ∧ outputMediaStream this' = outputMediaStream this
  ∧ w_streams w' = w_streams w
  ∧ w_log w' = w_log w
  ∧ (∀ s tr, inputVideoStream this = Some s → tr ∈ getTracks w s → is_live w' tr = false)
  ∧ (∀ tr, tr ∈ getTracks w (outputMediaStream this) → is_live w' tr = false)
  ∧ isOutputMediaStreamActive this' w' = false
  ∧ (∀ tr, is_live w tr = false → is_live w' tr = false).
Proof.
  rewrite (surjective_pairing (stop this w)).
  pose proof (stop_handler this w) as Hh. cbn zeta in Hh.
  pose proof (stop_readyState this w) as Hrs.
  pose proof (stop_streams this w) as Hst.
  assert (Hout : ∀ tr, tr ∈ getTracks w (outputMediaStream this) →
                       is_live (stop this w).2 tr = false).
  { intros tr Htr. rewrite (is_live_readyState _ _ tr Hrs).
    unfold stopped_world. by apply stop_tracks_not_live. }
  assert (Hsame : outputMediaStream (stop this w).1 = outputMediaStream this).
  { rewrite Hh. by destruct (truthy (lastTimeOut this)). }
  repeat split.
  - rewrite Hh. by destruct (truthy (lastTimeOut this)).
  - rewrite Hh. by destruct (truthy (lastTimeOut this)).
  - rewrite Hh. by destruct (truthy (lastTimeOut this)).
  - exact Hsame.
  - exact Hst.
  - rewrite stop_world.
    assert (w_log (stopped_world this w) = w_log w) as H.
    { unfold stopped_world. rewrite stop_tracks_log.
      destruct (inputVideoStream this); [apply stop_tracks_log | reflexivity]. }
    by destruct (truthy (lastTimeOut this)).
  - intros s tr Hs Htr. rewrite (is_live_readyState _ _ tr Hrs).
    unfold stopped_world. rewrite Hs. apply stop_tracks_stay_dead.
    by apply stop_tracks_not_live.
  - exact Hout.
  - unfold isOutputMediaStreamActive, active. rewrite Hsame.
    destruct (existsb _ _) eqn:E; [|reflexivity].
    apply existsb_exists in E as (tr & Htr & Hlive).
    unfold getTracks in Htr. rewrite Hst in Htr.
    rewrite Hout in Hlive; [discriminate | by apply list_elem_of_In].
  - intros tr Hdead. rewrite (is_live_readyState _ _ tr Hrs).
    unfold stopped_world. apply stop_tracks_stay_dead.
    destruct (inputVideoStream this); [by apply stop_tracks_stay_dead | exact Hdead].
Qed.

(** X8. A second [stop()] changes nothing. *)
Theorem stop_idempotent (this : t) (w : World) :
  stop (stop this w).1 (stop this w).2 = stop this w.
Proof.
  set (h1 := (stop this w).1). set (w1 := (stop this w).2).
  assert (Hin : inputVideoStream h1 = None) by apply stop_unbinds.
  assert (Hto : truthy (lastTimeOut h1) = false).
  { unfold h1. rewrite stop_handler. cbn zeta.
    destruct (truthy (lastTimeOut this)) eqn:E; [reflexivity | exact E]. }
  assert (Hout : outputMediaStream h1 = outputMediaStream this).
  { unfold h1. rewrite stop_handler. cbn zeta. by destruct (truthy (lastTimeOut this)). }
  rewrite (surjective_pairing (stop h1 w1)), (surjective_pairing (stop this w)).
  fold h1 w1. f_equal.
  - rewrite stop_handler. cbn zeta. rewrite Hto.
    unfold h1. rewrite stop_handler. cbn zeta.
    by destruct (truthy (lastTimeOut this)).
  - rewrite stop_world, Hto. unfold stopped_world at 1. rewrite Hin, Hout.
    apply stop_tracks_ended. intros tr Htr.
    unfold w1. rewrite stop_readyState. unfold stopped_world.
    assert (Htr' : tr ∈ getTracks w (outputMediaStream this)).
    { unfold getTracks in *. unfold w1 in Htr. by rewrite stop_streams in Htr. }
    rewrite stop_tracks_readyState, decide_True; [reflexivity|].
    apply list_elem_of_fmap. eauto.
Qed.

(** X9. After [stop()], with nothing bound again, the events that used to
    drive the loop no longer reach the sink: 'loadedmetadata' finds no
    listener, and an expiring timeout finds no input. The handler (both
    canvases included) stays as it is, nothing new is scheduled, and the
    expired handle is no longer pending. *)
Theorem events_after_stop_are_idle (this : t) (w : World) (id : nat) (latency : Q)
    (vw vh : nat) (frame : list byte) :
  let '(h1, w1) := stop this w in
  dispatch_loadedmetadata vw vh frame latency h1 w1
    = (next_frame vw vh frame h1, w1, Fulfilled)
  ∧ (fire_timer id latency h1 w1).1.1 = h1
  ∧ (fire_timer id latency h1 w1).2 = Fulfilled
  ∧ w_timers (fire_timer id latency h1 w1).1.2 ⊆ w_timers w1
  ∧ (∀ tm, tm ∈ w_timers (fire_timer id latency h1 w1).1.2 → owns h1 id tm = false)
  ∧ w_readyState (fire_timer id latency h1 w1).1.2 = w_readyState w1
  ∧ w_streams (fire_timer id latency h1 w1).1.2 = w_streams w1.
Proof.
  rewrite (surjective_pairing (stop this w)).
  set (h1 := (stop this w).1). set (w1 := (stop this w).2).
  assert (Hin : inputVideoStream h1 = None) by apply stop_unbinds.
  assert (Hl : loadedmetadata_listener (videoInput h1) = false).
  { unfold h1. rewrite stop_handler. cbn zeta. by destruct (truthy (lastTimeOut this)). }
  split.
  { unfold dispatch_loadedmetadata, next_frame. cbn [videoInput set_videoInput video_present
      loadedmetadata_listener]. by rewrite Hl. }
  unfold fire_timer. destruct (existsb (owns h1 id) (w_timers w1)) eqn:E.
  - rewrite process_unbound by exact Hin. cbn [fst snd upd_timers w_timers w_readyState w_streams].
    repeat split.
    + intros tm Htm. apply elem_of_filter_list in Htm. tauto.
    + intros tm Htm. apply elem_of_filter_list in Htm as [_ Htm].
      by apply negb_true_iff in Htm.
  - cbn [fst snd]. repeat split; [done|].
    intros tm Htm. destruct (owns h1 id tm) eqn:Eo; [|reflexivity].
    assert (existsb (owns h1 id) (w_timers w1) = true) as Hex.
    { apply existsb_exists. exists tm. split; [by apply list_elem_of_In | exact Eo]. }
    congruence.
Qed.

End TeardownProperties.

Section OutputHandleAfterStop.
Import PremiumVideoStreamHandler.

Lemma stop_output_ended (this : t) (w : World) (tr : Track) :
  tr ∈ getTracks w (outputMediaStream this) →
  w_readyState (stop this w).2 !! track_ref tr = Some Ended.
Proof.
  intros Htr. rewrite stop_readyState. unfold stopped_world.
  rewrite stop_tracks_readyState, decide_True; [reflexivity|].
  apply list_elem_of_fmap. eauto.
Qed.

Lemma stop_output_inactive (this : t) (w : World) :
  isOutputMediaStreamActive (stop this w).1 (stop this w).2 = false.
Proof.
  assert (Hsame : outputMediaStream (stop this w).1 = outputMediaStream this).
  { rewrite stop_handler. cbn zeta. by destruct (truthy (lastTimeOut this)). }
  unfold isOutputMediaStreamActive, active. rewrite Hsame.
  destruct (existsb _ _) eqn:E; [|reflexivity].
  apply existsb_exists in E as (tr & Htr & Hlive).
  unfold getTracks in Htr. rewrite stop_streams in Htr. apply list_elem_of_In in Htr.
  unfold is_live in Hlive. apply bool_decide_eq_true in Hlive.
  rewrite (stop_output_ended this w tr Htr) in Hlive. discriminate.
Qed.

(** [stop()] keeps the output handle, but the handle is dead: the next
    [getActiveOutputMediaStream()] captures the sink anew and returns another
    handle, which is active, while the handle given out before keeps its
    tracks and stays inactive. *)
Lemma stop_then_getActive_fresh (this : t) (w : World) :
  is_Some (w_streams w !! outputMediaStream this) →
  let '(h1, w1) := stop this w in
  let '(h2, w2, out) := getActiveOutputMediaStream h1 w1 in
  out ≠ outputMediaStream this
  ∧ (out ∉ dom (w_streams w))
  ∧ outputMediaStream h2 = out
  ∧ isOutputMediaStreamActive h2 w2 = true
  ∧ getTracks w2 (outputMediaStream this) = getTracks w (outputMediaStream this)
  ∧ active w2 (outputMediaStream this) = false.
Proof.
  intros Hold. rewrite (surjective_pairing (stop this w)).
  set (h1 := (stop this w).1). set (w1 := (stop this w).2).
  pose proof (stop_output_inactive this w) as Hoff. fold h1 w1 in Hoff.
  pose proof (captured_stream_active h1 w1) as Hact.
  assert (Hin : inputVideoStream h1 = None) by apply stop_unbinds.
  unfold getActiveOutputMediaStream. rewrite Hoff.
  unfold captureStream in *.
  set (r := fresh (dom (w_readyState w1))) in *.
  set (s := fresh (dom (w_streams w1))) in *.
  assert (Hs : s = fresh (dom (w_streams w))) by (unfold s, w1; by rewrite stop_streams).
  assert (Hfresh : s ∉ dom (w_streams w)) by (rewrite Hs; apply is_fresh).
  assert (Hne : s ≠ outputMediaStream this).
  { intros E. apply Hfresh. rewrite E. by apply elem_of_dom. }
  assert (Hkeep : getTracks
            (cloneInputAudioTracksToOutput (set_outputMediaStream s h1)
               (upd_streams <[s := [mkTrack r (pretty r) KindVideo
                                      (cv_width (canvasOutput h1)) (cv_height (canvasOutput h1))]]>
                  (upd_readyState <[r := Live]> w1))) (outputMediaStream this)
          = getTracks w (outputMediaStream this)).
  { unfold cloneInputAudioTracksToOutput. cbn [inputVideoStream set_outputMediaStream].
    rewrite Hin. unfold getTracks. cbn. rewrite lookup_insert_ne by done.
    unfold w1. by rewrite stop_streams. }
  split; [exact Hne|]. split; [exact Hfresh|]. split; [reflexivity|].
  split; [exact Hact|]. split; [exact Hkeep|].
  unfold active. rewrite Hkeep.
  destruct (existsb _ _) eqn:E; [|reflexivity].
  apply existsb_exists in E as (tr & Htr & Hlive). apply list_elem_of_In in Htr.
  unfold is_live in Hlive. apply bool_decide_eq_true in Hlive.
  unfold cloneInputAudioTracksToOutput in Hlive.
  cbn [inputVideoStream set_outputMediaStream] in Hlive. rewrite Hin in Hlive. cbn in Hlive.
  pose proof (stop_output_ended this w tr Htr) as Hended. fold w1 in Hended.
  rewrite lookup_insert_ne in Hlive; [congruence|].
  intros E. assert (r ∈ dom (w_readyState w1)) as Hr.
  { rewrite E. apply elem_of_dom. eauto. }
  by apply is_fresh in Hr.
Qed.

End OutputHandleAfterStop.

(** ** The stream handler: what a tick does *)

Section Canvases.

Lemma wf_set_canvas_width (n : nat) (c : Canvas) : wf_canvas (set_canvas_width n c).
Proof. unfold wf_canvas, set_canvas_width, blank. cbn. apply length_replicate. Qed.

Lemma wf_set_canvas_height (n : nat) (c : Canvas) : wf_canvas (set_canvas_height n c).
Proof. unfold wf_canvas, set_canvas_height, blank. cbn. apply length_replicate. Qed.

Lemma wf_blit (sw sh : nat) (src : list byte) (c : Canvas) :
  wf_canvas c → wf_canvas (blit sw sh src c).
Proof. unfold wf_canvas, blit. cbn. by rewrite length_imap. Qed.

Lemma wf_createCanvas : wf_canvas createCanvas.
Proof. unfold wf_canvas, createCanvas, blank. cbn [cv_bitmap cv_width cv_height].
  apply length_replicate. Qed.



End Canvases.

Section Tick.
Import PremiumVideoStreamHandler.

Lemma process_unfold (latency : Q) (this : t) (w : World) :
  process latency this w =
    match inputVideoStream this with
    | None => (this, w, Fulfilled)
    | Some _ =>
        let this1 := capture this in
        match getImageData (canvasInput this1) with
        | inl e => (this1, w, Rejected e)
        | inr inputImageData =>
            match PremiumVideoEffectDriver.apply (videoEffectDriver this1) w inputImageData with
            | inl e => (this1, w, Rejected e)
            | inr transformedImageData =>
                let this2 := resize_sink (videoInput this) this1 in
                let this3 :=
                  set_canvasOutput (putImageData transformedImageData (canvasOutput this2))
                    this2 in
                (set_lastTimeout (Some (w_nextTimer w)) this3,
                 (setTimeout (self this3)
                    (Qmax MIN_FRAME_DELAY (MS_PER_SECOND / framerate this3 - latency)) w).2,
                 Fulfilled)
            end
        end
    end.
Proof. reflexivity. Qed.

Lemma capture_fields (this : t) :
  canvasOutput (capture this) = canvasOutput this
  ∧ framerate (capture this) = framerate this
  ∧ videoInput (capture this) = videoInput this
  ∧ inputVideoStream (capture this) = inputVideoStream this
  ∧ outputMediaStream (capture this) = outputMediaStream this
  ∧ lastTimeOut (capture this) = lastTimeOut this
  ∧ self (capture this) = self this
  ∧ videoEffectDriver (capture this) = videoEffectDriver this.
Proof. unfold capture. by destruct (negb _). Qed.

Lemma capture_wf (this : t) : wf_canvas (canvasInput this) → wf_canvas (canvasInput (capture this)).
Proof.
  intros Hwf. unfold capture. destruct (negb _); [|exact Hwf].
  cbn [canvasInput set_canvasInput]. apply wf_blit, wf_set_canvas_height.
Qed.

Lemma resize_sink_fields (v : VideoElement) (this1 : t) :
  canvasInput (resize_sink v this1) = canvasInput this1
  ∧ framerate (resize_sink v this1) = framerate this1
  ∧ videoInput (resize_sink v this1) = videoInput this1
  ∧ inputVideoStream (resize_sink v this1) = inputVideoStream this1
  ∧ outputMediaStream (resize_sink v this1) = outputMediaStream this1
  ∧ lastTimeOut (resize_sink v this1) = lastTimeOut this1
  ∧ self (resize_sink v this1) = self this1.
Proof. unfold resize_sink. by destruct (negb _ && negb _). Qed.

Lemma resize_sink_wf (v : VideoElement) (this1 : t) :
  wf_canvas (canvasOutput this1) → wf_canvas (canvasOutput (resize_sink v this1)).
Proof.
  intros Hwf. unfold resize_sink. destruct (negb _ && negb _); [|exact Hwf].
  apply wf_set_canvas_height.
Qed.

Lemma process_canvases (latency : Q) (this : t) (w : World) :
  wf_canvas (canvasInput this) ∧ wf_canvas (canvasOutput this)
  ∧ framerate this = DEFAULT_FRAMERATE →
  wf_canvas (canvasInput (process latency this w).1.1)
  ∧ wf_canvas (canvasOutput (process latency this w).1.1)
  ∧ framerate (process latency this w).1.1 = DEFAULT_FRAMERATE.
Proof.
  intros (Hi & Ho & Hf). rewrite process_unfold.
  destruct (inputVideoStream this); [|done]. cbn zeta.
  destruct (capture_fields this) as (Eo & Ef & _).
  pose proof (capture_wf this Hi) as Hi1.
  assert (Hrej : wf_canvas (canvasInput (capture this))
                 ∧ wf_canvas (canvasOutput (capture this))
                 ∧ framerate (capture this) = DEFAULT_FRAMERATE).
  { rewrite Eo, Ef. done. }
  destruct (getImageData _) as [e|img]; [exact Hrej|].
  destruct (PremiumVideoEffectDriver.apply _ _ _) as [e|out]; [exact Hrej|].
  cbn [fst snd canvasInput canvasOutput framerate set_lastTimeout set_canvasOutput].
  destruct (resize_sink_fields (videoInput this) (capture this)) as (Ei2 & Ef2 & _).
  rewrite Ei2, Ef2, Ef. repeat split; [exact Hi1 | | exact Hf].
  apply wf_blit, resize_sink_wf. by rewrite Eo.
Qed.

(** The canvases of a handler hold a bitmap of their own size, and its
    frame rate is the default one. *)
Lemma reachable_canvases (this : t) (w : World) :
  reachable this w →
  wf_canvas (canvasInput this) ∧ wf_canvas (canvasOutput this)
  ∧ framerate this = DEFAULT_FRAMERATE.
Proof.
  induction 1 as [driver w | play_ok ms h w _ IH | h w _ IH | h w _ IH
                 | vw vh frame latency h w _ IH | vw vh frame h w _ IH
                 | id latency h w _ IH].
  - unfold constructor, new_MediaStream. cbn [fst canvasInput canvasOutput framerate].
    split; [apply wf_createCanvas | split; [apply wf_createCanvas | reflexivity]].
  - unfold setInputMediaStream. destruct ms as [s|].
    + destruct (length (getVideoTracks w s) =? 0); [exact IH|].
      unfold startVideoOnMediaStream. cbn [inputVideoStream set_inputVideoStream].
      destruct (getVideoTracks w s); [exact IH|]. cbn.
      destruct IH as (Hi & _ & Hf). repeat split; [exact Hi | | exact Hf].
      apply wf_set_canvas_height.
    + cbn [fst snd]. rewrite stop_handler. cbn zeta.
      by destruct (truthy (lastTimeOut h)).
  - unfold getActiveOutputMediaStream.
    by destruct (isOutputMediaStreamActive h w).
  - rewrite stop_handler. cbn zeta. by destruct (truthy (lastTimeOut h)).
  - unfold dispatch_loadedmetadata. cbn [videoInput set_videoInput].
    destruct (loadedmetadata_listener _); [by apply process_canvases | exact IH].
  - exact IH.
  - unfold fire_timer. destruct (existsb _ _); [by apply process_canvases | exact IH].
Qed.

End Tick.

Section TickProperties.
Import PremiumVideoStreamHandler.

Lemma capture_size (this : t) :
  cv_width (canvasInput (capture this))
    = (if videoWidth (videoInput this) =? 0 then cv_width (canvasInput this)
       else videoWidth (videoInput this))
  ∧ cv_height (canvasInput (capture this))
    = (if videoWidth (videoInput this) =? 0 then cv_height (canvasInput this)
       else videoHeight (videoInput this)).
Proof. unfold capture. by destruct (videoWidth (videoInput this) =? 0). Qed.

Lemma pending_setTimeout (owner : nat) (delay : Q) (w : World) :
  pending (setTimeout owner delay w).2 = pending w ++ [w_nextTimer w].
Proof. unfold pending, setTimeout. cbn. by rewrite fmap_app. Qed.

(** X10. A tick never touches tracks, track sets, the configuration or the
    log, and never changes what the handler is bound to: it only paints the
    two canvases and adds to the queue of timeouts. *)
Theorem process_touches_only_canvases_and_timers (latency : Q) (this : t) (w : World) :
  let '(this', w', result) := process latency this w in
  inputVideoStream this' = inputVideoStream this
  ∧ outputMediaStream this' = outputMediaStream this
  ∧ videoInput this' = videoInput this
  ∧ lastTimeOut this' = lastTimeOut this
  ∧ self this' = self this
  ∧ w_streams w' = w_streams w
  ∧ w_readyState w' = w_readyState w
  ∧ w_configs w' = w_configs w
  ∧ w_log w' = w_log w
  ∧ w_timers w `prefix_of` w_timers w'.
Proof.
  rewrite process_unfold. destruct (inputVideoStream this) eqn:Hin; [|by rewrite Hin].
  cbn zeta. destruct (capture_fields this) as (_ & _ & Hv & Hi & Ho & Hl & Hs & _).
  rewrite Hin in Hi.
  assert (Hrej : inputVideoStream (capture this) = Some n
                 ∧ outputMediaStream (capture this) = outputMediaStream this
                 ∧ videoInput (capture this) = videoInput this
                 ∧ lastTimeOut (capture this) = lastTimeOut this
                 ∧ self (capture this) = self this
                 ∧ w_streams w = w_streams w ∧ w_readyState w = w_readyState w
                 ∧ w_configs w = w_configs w ∧ w_log w = w_log w
                 ∧ w_timers w `prefix_of` w_timers w) by done.
  destruct (getImageData _) as [e|img]; [exact Hrej|].
  destruct (PremiumVideoEffectDriver.apply _ _ _) as [e|out]; [exact Hrej|].
  destruct (resize_sink_fields (videoInput this) (capture this))
    as (_ & _ & Hv2 & Hi2 & Ho2 & Hl2 & Hs2).
  cbn. rewrite Hv2, Hi2, Ho2, Hl2, Hs2. repeat split; try done.
  by apply prefix_app_r.
Qed.

(** X11. In any state a handler can reach, a tick with an input bound either
    finds its capture surface without pixels (a zero dimension) and is
    rejected with IndexSizeError, leaving the store and the sink as they were
    and scheduling nothing, or runs to its end and schedules exactly one
    timeout, whose handle it keeps under [lastTimeout]. *)
Theorem tick_outcome (latency : Q) (this : t) (w : World) :
  reachable this w →
  is_Some (inputVideoStream this) →
  let v := videoInput this in
  let cw := if videoWidth v =? 0 then cv_width (canvasInput this) else videoWidth v in
  let ch := if videoWidth v =? 0 then cv_height (canvasInput this) else videoHeight v in
  let '(this', w', result) := process latency this w in
  if (cw =? 0) || (ch =? 0) then
    result = Rejected IndexSizeError ∧ w' = w ∧ canvasOutput this' = canvasOutput this
  else
    result = Fulfilled
    ∧ pending w' = pending w ++ [w_nextTimer w]
    ∧ lastTimeout this' = Some (w_nextTimer w).
Proof.
  intros Hreach [s Hs]. cbn zeta.
  destruct (reachable_canvases this w Hreach) as (Hwi & _ & _).
  pose proof (capture_wf this Hwi) as Hwf1. unfold wf_canvas in Hwf1.
  destruct (capture_size this) as (Ew & Eh).
  destruct (capture_fields this) as (Eo & _).
  rewrite process_unfold, Hs. cbn zeta. unfold getImageData. rewrite Ew, Eh.
  destruct (_ || _) eqn:Ez; [by rewrite Eo|].
  apply orb_false_elim in Ez as [Ez1 Ez2].
  apply Nat.eqb_neq in Ez1, Ez2.
  rewrite apply_wf.
  - repeat split. apply pending_setTimeout.
  - unfold wf_ImageData. cbn [width height data]. rewrite Hwf1, Ew, Eh. lia.
Qed.


(** X13. A tick that runs while the video element has no size yet (0 x 0, as
    before its metadata is loaded) and the sink has pixels: nothing is drawn
    on the capture surface, the sink is resized to 0 x 0 and so loses its
    picture, and the next tick is scheduled. *)
Theorem tick_without_video_size_empties_sink (latency : Q) (this : t) (w : World) :
  is_Some (inputVideoStream this) →
  videoWidth (videoInput this) = 0 →
  videoHeight (videoInput this) = 0 →
  cv_width (canvasOutput this) ≠ 0 →
  cv_height (canvasOutput this) ≠ 0 →
  wf_canvas (canvasInput this) →
  cv_width (canvasInput this) ≠ 0 →
  cv_height (canvasInput this) ≠ 0 →
  let '(this', w', result) := process latency this w in
  result = Fulfilled
  ∧ canvasInput this' = canvasInput this
  ∧ canvasOutput this' = mkCanvas 0 0 []
  ∧ pending w' = pending w ++ [w_nextTimer w].
Proof.
  intros [s Hs] Hvw Hvh Hcw Hch Hwf Hiw Hih.
  assert (Hcap : capture this = this) by (unfold capture; by rewrite Hvw).
  rewrite process_unfold, Hs. cbn zeta. rewrite Hcap.
  unfold getImageData.
  apply Nat.eqb_neq in Hiw, Hih. rewrite Hiw, Hih. cbn [orb].
  apply Nat.eqb_neq in Hiw, Hih.
  rewrite apply_wf by (unfold wf_ImageData, wf_canvas in *; cbn [width height data]; lia).
  unfold resize_sink. rewrite Hvw, Hvh.
  apply Nat.eqb_neq in Hcw, Hch. rewrite Hcw, Hch. cbn [negb andb].
  cbn [fst snd canvasInput canvasOutput set_lastTimeout set_canvasOutput].
  repeat split. apply pending_setTimeout.
Qed.

End TickProperties.

Section TickDelay.
Import PremiumVideoStreamHandler.


End TickDelay.

(** ** The transform device: teardown and construction *)

Section DeviceTeardown.
Import PremiumVideoTransformDevice.

(** X15. The device's [stop()] ends the video tracks of the recorded input and
    forgets the stream. It leaves every other track (the audio tracks) in
    its state, and it does not reach the handler: the handler stays bound and
    every pending timeout stays pending. A second [stop()] changes nothing. *)
Theorem device_stop_ends_video_only (this : t) (w : World) :
  let '(this', w') := stop this w in
  inputMediaStream this' = None
  ∧ device this' = device this
  ∧ premiumVideoStreamHandler this' = premiumVideoStreamHandler this
  ∧ w_timers w' = w_timers w
  ∧ w_streams w' = w_streams w
  ∧ w_log w' = w_log w
  ∧ (∀ s tr, inputMediaStream this = Some s → tr ∈ getVideoTracks w s →
             is_live w' tr = false)
  ∧ (∀ s tr, inputMediaStream this = Some s →
             (∀ v, v ∈ getVideoTracks w s → track_ref v ≠ track_ref tr) →
             is_live w' tr = is_live w tr)
  ∧ (inputMediaStream this = None → w' = w)
  ∧ stop this' w' = (this', w').
Proof.
  unfold stop, stop_video_tracks. cbn [inputMediaStream device premiumVideoStreamHandler].
  split; [reflexivity|]. split; [reflexivity|]. split; [reflexivity|].
  split; [destruct (inputMediaStream this); [apply stop_tracks_timers | reflexivity]|].
  split; [destruct (inputMediaStream this); [apply stop_tracks_streams | reflexivity]|].
  split; [destruct (inputMediaStream this); [apply stop_tracks_log | reflexivity]|].
  split; [|split; [|split]].
  - intros s tr -> Htr. by apply stop_tracks_not_live.
  - intros s tr -> Hother. unfold is_live. rewrite stop_tracks_readyState.
    rewrite decide_False; [reflexivity|].
    intros Hin. apply list_elem_of_fmap in Hin as (v & Hv & Hvin).
    by apply (Hother v Hvin).
  - by intros ->.
  - reflexivity.
Qed.

(** X16. When the output is disconnected, a device that sits on a caller's
    [MediaStream] only logs; any other device does to the tracks what
    [stop()] does. Either way the recorded stream is kept, no timeout is
    touched and one line is logged. *)
Theorem disconnect_respects_stream_devices (this : t) (w : World) :
  w_readyState (onOutputStreamDisconnect this w)
    = (if deviceIsMediaStream (device this) then w_readyState w
       else w_readyState (stop this w).2)
  ∧ w_timers (onOutputStreamDisconnect this w) = w_timers w
  ∧ w_streams (onOutputStreamDisconnect this w) = w_streams w
  ∧ w_log (onOutputStreamDisconnect this w)
    = w_log w ++ [(LogInfo, "DefaultVideoTransformDevice: detach stopping input media stream")].
Proof.
  unfold onOutputStreamDisconnect, stop, stop_video_tracks. cbn [snd].
  set (w1 := logger LogInfo _ w).
  destruct (deviceIsMediaStream (device this)); cbn [negb]; [done|].
  destruct (inputMediaStream this) as [s|]; [|done].
  change (getVideoTracks w1 s) with (getVideoTracks w s).
  repeat split.
  - apply map_eq. intros r. by rewrite !stop_tracks_readyState.
  - by rewrite stop_tracks_timers.
  - by rewrite stop_tracks_streams.
  - by rewrite stop_tracks_log.
Qed.

(** X17. [transformStream()] without a stream stops the handler, which ends
    the tracks of the output handle given out so far, and then asks for the
    active output: the caller gets a new handle, active, and the previous
    one stays as inactive as [stop()] left it. *)
Theorem transformStream_without_stream (play_ok : bool) (this : t) (w : World) :
  is_Some (w_streams w !! outputMediaStream this) →
  let '(this', w', result) := transformStream play_ok None this w in
  ∃ out, result = inr out
         ∧ inputMediaStream this' = None
         ∧ PremiumVideoStreamHandler.inputVideoStream (premiumVideoStreamHandler this') = None
         ∧ outputMediaStream this' = out
         ∧ out ≠ outputMediaStream this
         ∧ active w' out = true
         ∧ active w' (outputMediaStream this) = false
         ∧ getTracks w' (outputMediaStream this) = getTracks w (outputMediaStream this).
Proof.
  intros Hold. unfold transformStream, PremiumVideoStreamHandler.setInputMediaStream.
  unfold outputMediaStream in *.
  set (h := premiumVideoStreamHandler this) in *.
  pose proof (stop_then_getActive_fresh h w Hold) as Hfresh.
  pose proof (getActive_input (PremiumVideoStreamHandler.stop h w).1
                (PremiumVideoStreamHandler.stop h w).2) as Hin.
  rewrite stop_unbinds in Hin.
  rewrite (surjective_pairing (PremiumVideoStreamHandler.stop h w)) in Hfresh |- *.
  destruct (PremiumVideoStreamHandler.getActiveOutputMediaStream _ _) as [[h2 w2] out].
  cbn [fst snd] in Hin. cbn [premiumVideoStreamHandler inputMediaStream].
  destruct Hfresh as (Hne & _ & Hout & Hact & Hkeep & Hdead).
  exists out. unfold PremiumVideoStreamHandler.isOutputMediaStreamActive in Hact.
  rewrite Hout in Hact. done.
Qed.

(** X19. A device made by the constructor (and so by [chooseNewInnerDevice])
    has no recorded input, an unbound handler and an output handle of its
    own that is empty and inactive. Making it stops no track, touches no
    timeout and no track set of a stream that exists: the device it replaces
    keeps running. *)
Theorem chooseNewInnerDevice_leaves_old_running (this : t) (d2 : Device) (w : World) :
  let '(new, w') := chooseNewInnerDevice this d2 w in
  inputMediaStream new = None
  ∧ PremiumVideoStreamHandler.inputVideoStream (premiumVideoStreamHandler new) = None
  ∧ getTracks w' (outputMediaStream new) = []
  ∧ active w' (outputMediaStream new) = false
  ∧ w_readyState w' = w_readyState w
  ∧ w_timers w' = w_timers w
  ∧ w_log w' = w_log w
  ∧ (∀ s, is_Some (w_streams w !! s) →
          s ≠ outputMediaStream new ∧ getTracks w' s = getTracks w s).
Proof.
  unfold chooseNewInnerDevice, constructor, PremiumVideoStreamHandler.constructor,
    new_MediaStream, outputMediaStream.
  cbn [premiumVideoStreamHandler inputMediaStream PremiumVideoStreamHandler.outputMediaStream
       PremiumVideoStreamHandler.inputVideoStream].
  set (s0 := fresh (dom (w_streams w))).
  assert (H0 : getTracks (upd_handlers (union {[fresh (w_handlers w)]})
                            (upd_streams <[s0 := []]> w)) s0 = []).
  { unfold getTracks. cbn. by rewrite lookup_insert_eq. }
  split; [reflexivity|]. split; [reflexivity|]. split; [exact H0|].
  split; [unfold active; by rewrite H0|].
  split; [reflexivity|]. split; [reflexivity|]. split; [reflexivity|].
  intros s Hs.
  assert (Hne : s ≠ s0).
  { intros ->. apply elem_of_dom in Hs. by apply is_fresh in Hs. }
  split; [exact Hne|]. unfold getTracks. cbn. by rewrite lookup_insert_ne.
Qed.

End DeviceTeardown.

(** ** The transform device: binding a stream *)

Section DeviceBinding.
Import PremiumVideoStreamHandler.

Lemma streams_remove_audio_other (out : nat) (A : list Track) (w : World) (s : nat) :
  s ≠ out → w_streams (foldl (remove_audio out) w A) !! s = w_streams w !! s.
Proof.
  intros Hne. revert w. induction A as [|a A IH]; intros w; cbn [foldl]; [done|].
  rewrite IH. unfold remove_audio, removeTrack. cbn. by rewrite lookup_insert_ne.
Qed.

Lemma streams_add_audio_other (out : nat) (A : list Track) (w : World) (s : nat) :
  s ≠ out → w_streams (foldl (add_audio out) w A) !! s = w_streams w !! s.
Proof.
  intros Hne. revert w. induction A as [|a A IH]; intros w; cbn [foldl]; [done|].
  rewrite IH. unfold add_audio, addTrack. cbn. by rewrite lookup_insert_ne.
Qed.

Lemma clone_streams_other (h : t) (w : World) (s : nat) :
  s ≠ outputMediaStream h →
  w_streams (cloneInputAudioTracksToOutput h w) !! s = w_streams w !! s.
Proof.
  intros Hne. unfold cloneInputAudioTracksToOutput.
  destruct (inputVideoStream h); [|done]. destruct (negb _); [done|].
  rewrite streams_add_audio_other by done. by apply streams_remove_audio_other.
Qed.

Lemma coherent_cons_fresh (tr : Track) (l : list Track) :
  (∀ u, u ∈ l → track_ref u ≠ track_ref tr) → coherent l → coherent (tr :: l).
Proof.
  intros Hfresh Hl. unfold coherent. rewrite Forall_forall. intros a Ha.
  rewrite Forall_forall. intros b Hb Href.
  apply elem_of_cons in Ha as [->|Ha]; apply elem_of_cons in Hb as [->|Hb].
  - reflexivity.
  - symmetry in Href. by apply Hfresh in Href.
  - by apply Hfresh in Href.
  - by apply (coherent_spec l).
Qed.

Lemma audio_of_video_and_audio (l k : list Track) :
  List.filter is_audio (List.filter is_video l ++ List.filter is_audio k)
  = List.filter is_audio k.
Proof. by rewrite List.filter_app, filter_audio_of_video, filter_twice. Qed.

Lemma clone_inactive (h : t) (w : World) :
  isOutputMediaStreamActive h w = false →
  cloneInputAudioTracksToOutput h w
  = logger LogInfo
      "Not cloning input audio tracks to output, do not have media streams ready" w.
Proof.
  intros Hoff. unfold cloneInputAudioTracksToOutput. rewrite Hoff.
  by destruct (inputVideoStream h).
Qed.

(** Audio synchronisation followed by the request for the active output,
    as [transformStream] runs them once a stream is bound. *)
Lemma sync_then_getActive (h : t) (w : World) (s : nat) :
  inputVideoStream h = Some s →
  is_Some (w_streams w !! s) →
  s ≠ outputMediaStream h →
  coherent (getTracks w (outputMediaStream h) ++ getTracks w s) →
  NoDup (getTracks w s) →
  tracked w s →
  let '(h', w', out) :=
    getActiveOutputMediaStream h (cloneInputAudioTracksToOutput h w) in
  outputMediaStream h' = out
  ∧ active w' out = true
  ∧ getAudioTracks w' out = getAudioTracks w s
  ∧ getTracks w' s = getTracks w s
  ∧ inputVideoStream h' = Some s
  ∧ canvasOutput h' = canvasOutput h
  ∧ videoInput h' = videoInput h
  ∧ w_timers w' = w_timers w.
Proof.
  intros Hin Hs Hne Hcoh Hnd Htracked.
  set (w3 := cloneInputAudioTracksToOutput h w).
  destruct (clone_frame h w) as (Hrs3 & Htm3 & _). fold w3 in Hrs3, Htm3.
  assert (Hs3 : getTracks w3 s = getTracks w s) by (by apply clone_other_tracks).
  unfold getActiveOutputMediaStream.
  destruct (isOutputMediaStreamActive h w3) eqn:Hact3.
  - split; [reflexivity|]. split; [exact Hact3|].
    destruct (isOutputMediaStreamActive h w) eqn:Hact.
    + pose proof (clone_output_tracks h w s Hact Hin Hcoh Hnd) as Hout. fold w3 in Hout.
      rewrite decide_False in Hout by exact Hne.
      repeat split; try done.
      unfold getAudioTracks at 1. rewrite Hout. apply audio_of_video_and_audio.
    + exfalso. unfold w3 in Hact3. rewrite clone_inactive in Hact3 by exact Hact.
      change (isOutputMediaStreamActive h w = true) in Hact3. congruence.
  - pose proof (captured_stream_active h w3) as Hcap.
    unfold captureStream in *.
    set (r := fresh (dom (w_readyState w3))) in *.
    set (s' := fresh (dom (w_streams w3))) in *.
    set (tr := mkTrack r (pretty r) KindVideo _ _) in *.
    set (w4 := upd_streams _ _) in *.
    set (h3 := set_outputMediaStream s' h) in *.
    assert (Hne' : s ≠ s').
    { intros E. assert (s ∈ dom (w_streams w3)) as Hd.
      { apply elem_of_dom. unfold w3. by rewrite clone_streams_other. }
      rewrite E in Hd. by apply is_fresh in Hd. }
    assert (Hs4 : getTracks w4 s = getTracks w s).
    { rewrite <- Hs3. unfold getTracks, w4. cbn. by rewrite lookup_insert_ne. }
    assert (Hout4 : getTracks w4 s' = [tr]).
    { unfold getTracks, w4. cbn. by rewrite lookup_insert_eq. }
    assert (Hact4 : isOutputMediaStreamActive h3 w4 = true).
    { unfold isOutputMediaStreamActive, active. cbn [outputMediaStream h3 set_outputMediaStream].
      rewrite Hout4. cbn [existsb]. rewrite orb_false_r. unfold is_live.
      apply bool_decide_eq_true. unfold w4, tr.
      cbn [w_readyState upd_streams upd_readyState track_ref]. by rewrite lookup_insert_eq. }
    assert (Hcoh4 : coherent (getTracks w4 (outputMediaStream h3) ++ getTracks w4 s)).
    { cbn [outputMediaStream h3 set_outputMediaStream]. rewrite Hout4, Hs4. cbn [app].
      apply coherent_cons_fresh.
      - intros u Hu Href. unfold tracked in Htracked. rewrite Forall_forall in Htracked.
        specialize (Htracked u Hu). rewrite Href in Htracked. cbn in Htracked.
        apply elem_of_dom in Htracked. rewrite <- Hrs3 in Htracked.
        by apply is_fresh in Htracked.
      - eapply coherent_subseteq; [|exact Hcoh]. intros x Hx. apply elem_of_app. by right. }
    assert (Hnd4 : NoDup (getTracks w4 s)) by (by rewrite Hs4).
    pose proof (clone_output_tracks h3 w4 s Hact4 Hin Hcoh4 Hnd4) as Hout5.
    cbn [outputMediaStream h3 set_outputMediaStream] in Hout5.
    rewrite decide_False in Hout5 by exact Hne'.
    destruct (clone_frame h3 w4) as (_ & Htm5 & _).
    split; [reflexivity|]. split; [exact Hcap|].
    split; [|split; [|repeat split]].
    + unfold getAudioTracks at 1. cbn [outputMediaStream h3 set_outputMediaStream].
      rewrite Hout5. unfold getVideoTracks, getAudioTracks at 1. rewrite Hs4.
      apply audio_of_video_and_audio.
    + rewrite clone_other_tracks by exact Hne'. exact Hs4.
    + exact Hin.
    + cbn zeta in Htm5. rewrite Htm5. exact Htm3.
Qed.

End DeviceBinding.

Section DeviceBindingTheorem.
Import PremiumVideoTransformDevice.

(** X18. [transformStream(s)] for a stream with a video track, given to a
    device whose output handle is another stream: the device records [s], the
    handler is bound to it and listens for its metadata, the sink takes the
    size in the settings of the first video track, and the handle returned is
    the handler's output, active, carrying exactly the audio tracks of [s].
    The stream itself is left as it is and no timeout is scheduled yet. *)
Theorem transformStream_binds_stream (play_ok : bool) (this : t) (w : World) (s : nat)
    (track0 : Track) (rest : list Track) :
  getVideoTracks w s = track0 :: rest →
  is_Some (w_streams w !! s) →
  s ≠ outputMediaStream this →
  coherent (getTracks w (outputMediaStream this) ++ getTracks w s) →
  NoDup (getTracks w s) →
  tracked w s →
  let '(this', w', result) := transformStream play_ok (Some s) this w in
  ∃ out, result = inr out
         ∧ outputMediaStream this' = out
         ∧ active w' out = true
         ∧ inputMediaStream this' = Some s
         ∧ PremiumVideoStreamHandler.inputVideoStream (premiumVideoStreamHandler this') = Some s
         ∧ srcObject (PremiumVideoStreamHandler.videoInput (premiumVideoStreamHandler this'))
           = Some s
         ∧ loadedmetadata_listener
             (PremiumVideoStreamHandler.videoInput (premiumVideoStreamHandler this')) = true
         ∧ cv_width (PremiumVideoStreamHandler.canvasOutput (premiumVideoStreamHandler this'))
           = settings_width track0
         ∧ cv_height (PremiumVideoStreamHandler.canvasOutput (premiumVideoStreamHandler this'))
           = settings_height track0
         ∧ getAudioTracks w' out = getAudioTracks w s
         ∧ getTracks w' s = getTracks w s
         ∧ w_timers w' = w_timers w.
Proof.
  intros Hv Hs Hne Hcoh Hnd Htracked.
  unfold transformStream, PremiumVideoStreamHandler.setInputMediaStream,
    PremiumVideoStreamHandler.startVideoOnMediaStream, outputMediaStream in *.
  cbn [PremiumVideoStreamHandler.inputVideoStream
       PremiumVideoStreamHandler.set_inputVideoStream].
  rewrite Hv. cbn [length Nat.eqb].
  set (h := premiumVideoStreamHandler this) in *.
  set (h2 := PremiumVideoStreamHandler.set_videoInput _ _).
  set (w2 := if play_ok then w else _).
  assert (Hw2 : ∀ x, getTracks w2 x = getTracks w x) by (intros x; unfold w2; by destruct play_ok).
  assert (Hs2 : w_streams w2 = w_streams w) by (unfold w2; by destruct play_ok).
  assert (Hr2 : w_readyState w2 = w_readyState w) by (unfold w2; by destruct play_ok).
  assert (Ht2 : w_timers w2 = w_timers w) by (unfold w2; by destruct play_ok).
  pose proof (sync_then_getActive h2 w2 s) as Hsync.
  cbn [PremiumVideoStreamHandler.inputVideoStream PremiumVideoStreamHandler.outputMediaStream
       h2 PremiumVideoStreamHandler.set_videoInput PremiumVideoStreamHandler.set_canvasOutput
       PremiumVideoStreamHandler.set_inputVideoStream] in Hsync.
  rewrite !Hw2, Hs2, Ht2 in Hsync. unfold tracked in Hsync. rewrite Hw2, Hr2 in Hsync.
  specialize (Hsync eq_refl Hs Hne Hcoh Hnd Htracked).
  destruct (PremiumVideoStreamHandler.getActiveOutputMediaStream h2 _) as [[h3 w3] out].
  destruct Hsync as (Hout & Hact & Haud & Hkeep & Hin & Hco & Hvi & Htm).
  exists out. cbn [premiumVideoStreamHandler inputMediaStream].
  rewrite Hco, Hvi. repeat split; try done.
  rewrite Haud. unfold getAudioTracks. by rewrite Hw2.
Qed.

End DeviceBindingTheorem.

(** ** The further properties on the example page *)

Section MoreExamples.
Import Scenario.

Lemma page_config : w_configs page !! PremiumVideoEffectDriver.config driver
                    = Some (mkEffectConfig false false).
Proof. vm_compute. reflexivity. Defined.

Lemma imageA_red_applied :
  PremiumVideoEffectDriver.apply driver red_page imageA = inr imageA_red.
Proof. vm_compute. reflexivity. Defined.

(** The red-shifted frame goes through red shift once more unchanged. *)
Lemma apply_idempotent_witness :
  PremiumVideoEffectDriver.apply driver red_page imageA = inr imageA_red
  ∧ PremiumVideoEffectDriver.apply driver red_page imageA_red = inr imageA_red.
Proof.
  split; [exact imageA_red_applied|].
  exact (apply_idempotent driver red_page imageA imageA_red imageA_red_applied).
Defined.

(** Byte 1, the green byte of the first pixel, is the camera's. *)
Lemma apply_keeps_green_and_alpha_witness :
  data imageA !! 1 = Some x20
  ∧ (1 mod 4 = 1 ∨ 1 mod 4 = 3)
  ∧ data imageA_red !! 1 = Some x20.
Proof.
  assert (Hb : data imageA !! 1 = Some x20) by reflexivity.
  assert (Hc : 1 mod 4 = 1 ∨ 1 mod 4 = 3) by (left; reflexivity).
  split; [exact Hb|]. split; [exact Hc|].
  exact (apply_keeps_green_and_alpha driver red_page imageA imageA_red 1 x20
           imageA_red_applied Hb Hc).
Defined.

(** Red shift is switched on on the page's configuration object. *)
Lemma setters_write_one_flag_witness :
  w_configs page !! PremiumVideoEffectDriver.config driver = Some (mkEffectConfig false false)
  ∧ PremiumVideoEffectDriver.read_config driver
      (PremiumVideoEffectDriver.setRedShiftState driver true page)
    = mkEffectConfig false true.
Proof.
  split; [exact page_config|].
  exact (proj1 (setters_write_one_flag driver driver true page _ page_config)).
Defined.

Lemma setter_then_apply_witness :
  w_configs page !! PremiumVideoEffectDriver.config driver = Some (mkEffectConfig false false)
  ∧ wf_ImageData imageA
  ∧ ∃ out, PremiumVideoEffectDriver.apply driver
             (PremiumVideoEffectDriver.setRedShiftState driver true page) imageA = inr out
           ∧ ∀ idx, idx < length (data imageA) → idx mod 4 = 0 → data out !! idx = Some xff.
Proof.
  split; [exact page_config|]. split; [exact imageA_wf|].
  exact (proj1 (setter_then_apply driver driver page _ imageA page_config eq_refl imageA_wf)).
Defined.

Import PremiumVideoStreamHandler.

Lemma reachable_created : reachable created.1 created.2.
Proof. exact (reach_constructor driver page). Qed.

Lemma reachable_bound : reachable bound.1.1 bound.1.2.
Proof. exact (reach_setInputMediaStream true (Some camera) _ _ reachable_created). Qed.

Lemma reachable_ticking : reachable ticking.1.1 ticking.1.2.
Proof. exact (reach_loadedmetadata 2 1 frameA 0 _ _ reachable_bound). Qed.

Lemma ticking_bound : is_Some (inputVideoStream ticking.1.1).
Proof. exists camera. vm_compute. reflexivity. Defined.

(** The second tick of the camera's chain runs to its end and schedules
    timeout 2. *)
Lemma tick_outcome_witness :
  reachable ticking.1.1 ticking.1.2
  ∧ is_Some (inputVideoStream ticking.1.1)
  ∧ (process 0 ticking.1.1 ticking.1.2).2 = Fulfilled
  ∧ pending (process 0 ticking.1.1 ticking.1.2).1.2 = [1; 2].
Proof.
  split; [exact reachable_ticking|]. split; [exact ticking_bound|].
  pose proof (tick_outcome 0 ticking.1.1 ticking.1.2 reachable_ticking ticking_bound) as W.
  cbn zeta in W.
  destruct (process 0 ticking.1.1 ticking.1.2) as [[h' w'] r].
  vm_compute in W. cbn [fst snd]. destruct W as (W1 & W2 & _). split; [exact W1 | exact W2].
Defined.



(** The screen share was bound over the camera's running chain: the video
    element has no size yet, and the camera's pending tick empties the
    1 x 1 sink. *)
Lemma tick_without_video_size_empties_sink_witness :
  is_Some (inputVideoStream rebound.1.1)
  ∧ videoWidth (videoInput rebound.1.1) = 0
  ∧ (cv_width (canvasOutput rebound.1.1), cv_height (canvasOutput rebound.1.1)) = (1, 1)
  ∧ canvasOutput (fire_timer 1 0 rebound.1.1 rebound.1.2).1.1 = mkCanvas 0 0 [].
Proof.
  assert (Hs : is_Some (inputVideoStream rebound.1.1))
    by (exists screen; vm_compute; reflexivity).
  assert (Hwf : wf_canvas (canvasInput rebound.1.1)) by (vm_compute; reflexivity).
  split; [exact Hs|]. split; [reflexivity|]. split; [reflexivity|].
  assert (Hfire : fire_timer 1 0 rebound.1.1 rebound.1.2
                  = process 0 rebound.1.1
                      (upd_timers (List.filter (λ tm, negb (owns rebound.1.1 1 tm)))
                         rebound.1.2)) by (vm_compute; reflexivity).
  rewrite Hfire.
  pose proof (tick_without_video_size_empties_sink 0 rebound.1.1
                (upd_timers (List.filter (λ tm, negb (owns rebound.1.1 1 tm))) rebound.1.2)
                Hs eq_refl eq_refl (Nat.neq_succ_0 0) (Nat.neq_succ_0 0) Hwf
                (Nat.neq_succ_0 1) (Nat.neq_succ_0 0)) as W.
  destruct (process 0 rebound.1.1 _) as [[h' w'] r].
  destruct W as (_ & _ & W & _). exact W.
Defined.

Import PremiumVideoTransformDevice.

(** The device on the camera is told to go on without a stream. *)
Lemma transformStream_without_stream_witness :
  is_Some (w_streams device_active.1.2 !! outputMediaStream device_active.1.1)
  ∧ inputMediaStream (transformStream true None device_active.1.1 device_active.1.2).1.1
    = None.
Proof.
  assert (Hs : is_Some (w_streams device_active.1.2 !! outputMediaStream device_active.1.1))
    by (eexists; vm_compute; reflexivity).
  split; [exact Hs|].
  pose proof (transformStream_without_stream true device_active.1.1 device_active.1.2 Hs) as W.
  destruct (transformStream true None device_active.1.1 device_active.1.2) as [[d' w'] r].
  destruct W as (out & _ & W & _). exact W.
Defined.

(** The new device is handed the camera: the output carries its audio. *)
Lemma transformStream_binds_stream_witness :
  getVideoTracks device_created.2 camera = [camera_video]
  ∧ camera ≠ outputMediaStream device_created.1
  ∧ ∃ out, (transformStream true (Some camera) device_created.1 device_created.2).2 = inr out
           ∧ getAudioTracks
               (transformStream true (Some camera) device_created.1 device_created.2).1.2 out
             = [camera_audio].
Proof.
  assert (Hv : getVideoTracks device_created.2 camera = [camera_video])
    by (vm_compute; reflexivity).
  assert (Hs : is_Some (w_streams device_created.2 !! camera))
    by (eexists; vm_compute; reflexivity).
  assert (Hne : camera ≠ outputMediaStream device_created.1)
    by (vm_compute; discriminate).
  assert (Hc : coherent (getTracks device_created.2 (outputMediaStream device_created.1)
                         ++ getTracks device_created.2 camera))
    by (refine (bool_decide_unpack _ _); vm_compute; exact I).
  assert (Hn : NoDup (getTracks device_created.2 camera))
    by (refine (bool_decide_unpack _ _); vm_compute; exact I).
  assert (Ht : tracked device_created.2 camera)
    by (refine (bool_decide_unpack _ _); vm_compute; exact I).
  split; [exact Hv|]. split; [exact Hne|].
  pose proof (transformStream_binds_stream true device_created.1 device_created.2 camera
                camera_video [] Hv Hs Hne Hc Hn Ht) as W.
  destruct (transformStream true (Some camera) device_created.1 device_created.2)
    as [[d' w'] r].
  destruct W as (out & Hr & _ & _ & _ & _ & _ & _ & _ & _ & Ha & _).
  exists out. cbn [fst snd]. split; [exact Hr|]. rewrite Ha. vm_compute. reflexivity.
Defined.

End MoreExamples.
